(** * The bulletin-board server (server.py), embedded and verified

    The server keeps three dictionaries (connected clients, groups, boards)
    and answers text requests of connected clients.  This development
    embeds the server's state and handlers as executable functions and
    proves properties of message visibility, broadcast, dispatch, message
    numbering, membership snapshots and the shutdown/startup round trip.

    Conventions of the embedding:
    - text is a [string]: a sequence of code points below 256 (the UTF-8
      decoding of received bytes happens before the model);
    - a Python [dict] is an association list in insertion order
      ([list(self.groups)[0:5]] and the broadcast loops depend on the order);
    - the member lists of groups are mutable Python lists: they live in a
      store of list objects and the dictionaries hold their addresses, so
      that [append], [remove] and [copy.deepcopy] mean what they mean in
      Python;
    - a socket is a number and [send]/[close] on it are recorded in the log
      of actions a step returns; sends are assumed to succeed;
    - every handler runs to completion before the next one starts (the
      handlers that write take [self.lock]). *)

From Stdlib Require Import ZArith Lia Ascii String.
From stdpp Require Import base relations list strings pretty.

Open Scope Z_scope.

(** ** Text primitives *)

Module Text.

(** [sep.join(l)] *)
Fixpoint join (sep : string) (l : list string) : string :=
  match l with
  | [] => ""
  | [x] => x
  | x :: l' => x +:+ sep +:+ join sep l'
  end.

(** [s.split(c)] for a one-character separator: never empty, and two
    adjacent separators give an empty field. *)
Fixpoint split (c : ascii) (s : string) : list string :=
  match s with
  | "" => [""]
  | String a s' =>
      if decide (a = c) then "" :: split c s'
      else match split c s' with
           | w :: ws => String a w :: ws
           | [] => [String a ""]
           end
  end.

(** [s[:-2]] *)
Definition drop_last2 (s : string) : string :=
  String.substring 0 (String.length s - 2)%nat s.

(** White space as [int()] and [str.strip] see it, for code points below
    256: TAB..CR, FS..US, space, NEL and NBSP. *)
Definition is_space (a : ascii) : bool :=
  let n := Ascii.nat_of_ascii a in
  ((9 <=? n) && (n <=? 13) || (28 <=? n) && (n <=? 32)
   || (n =? 133) || (n =? 160))%nat.

Fixpoint lstrip (s : string) : string :=
  match s with
  | "" => ""
  | String a s' => if is_space a then lstrip s' else s
  end.

Fixpoint rstrip (s : string) : string :=
  match s with
  | "" => ""
  | String a s' =>
      match rstrip s' with
      | "" => if is_space a then "" else String a ""
      | r => String a r
      end
  end.

(** [s.strip()] *)
Definition strip (s : string) : string := rstrip (lstrip s).

Definition digit (a : ascii) : option N :=
  N.of_nat <$> Ascii.is_nat a.

(** The digits of a decimal literal: single underscores are allowed
    between digits, nowhere else.  [prev] says whether the previous
    character was a digit. *)
Fixpoint int_digits (acc : N) (prev : bool) (s : string) : option N :=
  match s with
  | "" => if prev then Some acc else None
  | String a s' =>
      match digit a with
      | Some d => int_digits (acc * 10 + d) true s'
      | None =>
          if decide (a = "_"%char) then
            if prev then int_digits acc false s' else None
          else None
      end
  end.

(** [int(s)] for a [str] argument: white space around, an optional sign,
    then the digits; [None] stands for [ValueError].  (The limit of 4300
    digits is out of reach: a frame has at most 1024 bytes.) *)
Definition py_int (s : string) : option Z :=
  match strip s with
  | String "-" s' => Z.opp <$> (Z.of_N <$> int_digits 0 false s')
  | String "+" s' => Z.of_N <$> int_digits 0 false s'
  | s' => Z.of_N <$> int_digits 0 false s'
  end.

(** [str(z)] for an [int] (also what [json.dump] writes for an integer
    key). *)
Definition py_str (z : Z) : string := pretty z.

(** [s.zfill(n)] on a digit string *)
Definition zfill (n : nat) (s : string) : string :=
  String.concat "" (replicate (n - String.length s) "0") +:+ s.

(** No character of [s] is white space. *)
Fixpoint no_space (s : string) : bool :=
  match s with
  | "" => true
  | String a s' => negb (is_space a) && no_space s'
  end.

End Text.

(** ** Dictionaries in insertion order *)

Section Dict.
Context {K V : Type} `{!EqDecision K}.

(** [d[k]] ([None] stands for [KeyError]) *)
Fixpoint dict_get (k : K) (d : list (K * V)) : option V :=
  match d with
  | [] => None
  | (k', v) :: d' => if decide (k = k') then Some v else dict_get k d'
  end.

(** [k in d] *)
Definition dict_mem (k : K) (d : list (K * V)) : bool :=
  bool_decide (is_Some (dict_get k d)).

(** [d[k] = v]: an existing key keeps its place, a new one goes last. *)
Fixpoint dict_set (k : K) (v : V) (d : list (K * V)) : list (K * V) :=
  match d with
  | [] => [(k, v)]
  | (k', v') :: d' =>
      if decide (k = k') then (k, v) :: d' else (k', v') :: dict_set k v d'
  end.

(** [d.pop(k)] for a key that is present *)
Fixpoint dict_pop (k : K) (d : list (K * V)) : list (K * V) :=
  match d with
  | [] => []
  | (k', v') :: d' =>
      if decide (k = k') then d' else (k', v') :: dict_pop k d'
  end.

(** [list(d)], [d.keys()] *)
Definition dict_keys (d : list (K * V)) : list K := d.*1.

End Dict.

(** ** Data model *)

(** [datetime.date]; [isoformat] (and [str]) write YYYY-MM-DD. *)
Record date := { year : nat; month : nat; day : nat }.

Definition isoformat (d : date) : string :=
  Text.zfill 4 (pretty (year d)) +:+ "-" +:+ Text.zfill 2 (pretty (month d))
  +:+ "-" +:+ Text.zfill 2 (pretty (day d)).

(** The ["date"] entry of a message: a [date] object when posted, the text
    [json.load] returned when the board was restored from boards.json. *)
Inductive date_value :=
  | DateObj (d : date)
  | DateStr (s : string).

(** [str(v)], as the f-string of [handle_message] renders the entry *)
Definition str_date (v : date_value) : string :=
  match v with
  | DateObj d => isoformat d
  | DateStr s => s
  end.

(** A message of a board (a dict with these five keys).
    ["users_at_time_of_posting"] holds the address of a list object. *)
Record Message := {
  sender : string;
  date_posted : date_value;
  subject : string;
  message : string;
  users_at_time_of_posting : nat;
}.

(** An entry of [connected_clients].  [name_id] is the identity of the
    [str] object held under ["name"]: [handle_join] compares names with
    [is not]. *)
Record Client := {
  name : string;
  name_id : nat;
  group : string;
  client_socket : nat;
}.

(** The attributes of [Server] that the handlers use, and the store of list
    objects the group lists and membership snapshots live in. *)
Record Server := {
  client_ids : nat;
  connected_clients : list (nat * Client);
  groups : list (string * nat);
  boards : list (string * list (Z * Message));
  heap : list (list string);
}.

Definition set_client_ids (n : nat) (st : Server) : Server :=
  {| client_ids := n; connected_clients := connected_clients st;
     groups := groups st; boards := boards st; heap := heap st |}.
Definition set_connected_clients (c : list (nat * Client)) (st : Server) :=
  {| client_ids := client_ids st; connected_clients := c;
     groups := groups st; boards := boards st; heap := heap st |}.
Definition set_groups (g : list (string * nat)) (st : Server) : Server :=
  {| client_ids := client_ids st; connected_clients := connected_clients st;
     groups := g; boards := boards st; heap := heap st |}.
Definition set_boards (b : list (string * list (Z * Message))) (st : Server) :=
  {| client_ids := client_ids st; connected_clients := connected_clients st;
     groups := groups st; boards := b; heap := heap st |}.
Definition set_heap (h : list (list string)) (st : Server) : Server :=
  {| client_ids := client_ids st; connected_clients := connected_clients st;
     groups := groups st; boards := boards st; heap := h |}.

(** [Server.__init__]: [groups = {"default": []}], [boards = {"default": {}}] *)
Definition init : Server :=
  {| client_ids := 0; connected_clients := [];
     groups := [("default", 0%nat)]; boards := [("default", [])];
     heap := [[]] |}.

(** The list object at an address.  The addresses a state holds are
    allocated (see [separated]), so the default is never read. *)
Definition deref (h : list (list string)) (a : nat) : list string :=
  default [] (h !! a).

(** [x in l] on a list *)
Definition py_in (x : string) (l : list string) : bool :=
  bool_decide (x ∈ l).

(** [l.remove(x)]: drops the first occurrence (callers test [x in l]
    first, so the [ValueError] of an absent [x] does not arise). *)
Fixpoint list_remove (x : string) (l : list string) : list string :=
  match l with
  | [] => []
  | y :: l' => if decide (x = y) then l' else y :: list_remove x l'
  end.

(** ** Effects: state, the log of socket actions, exceptions *)

Inductive action :=
  | Send (sock : nat) (text : string)
  | Close (sock : nat).

Inductive exn :=
  KeyError | IndexError | ValueError | TypeError | UnboundLocalError.

Inductive res (A : Type) :=
  | Val (a : A)
  | Raise (e : exn).
Arguments Val {A} a.
Arguments Raise {A} e.

Definition M (A : Type) : Type := Server → res A * Server * list action.

Definition ret {A} (a : A) : M A := λ st, (Val a, st, []).
Definition raise {A} (e : exn) : M A := λ st, (Raise e, st, []).
Definition bind {A B} (m : M A) (f : A → M B) : M B := λ st,
  match m st with
  | (Val a, st1, o1) =>
      match f a st1 with (r, st2, o2) => (r, st2, o1 ++ o2) end
  | (Raise e, st1, o1) => (Raise e, st1, o1)
  end.

#[global] Instance M_ret : MRet M := @ret.
#[global] Instance M_bind : MBind M := λ A B f m, bind m f.

Definition get : M Server := λ st, (Val st, st, []).
Definition modify (f : Server → Server) : M unit := λ st, (Val tt, f st, []).
Definition emit (o : list action) : M unit := λ st, (Val tt, st, o).
(** [sock.send(text.encode())] *)
Definition send (sock : nat) (text : string) : M unit := emit [Send sock text].
(** A lookup that raises [e] when it fails *)
Definition lift {A} (e : exn) (o : option A) : M A :=
  match o with Some a => ret a | None => raise e end.
(** [try: m  except Exception: h] *)
Definition try_except {A} (m h : M A) : M A := λ st,
  match m st with
  | (Raise _, st1, o1) =>
      match h st1 with (r, st2, o2) => (r, st2, o1 ++ o2) end
  | r => r
  end.

(** A new list object *)
Definition alloc (l : list string) : M nat := λ st,
  (Val (length (heap st)), set_heap (heap st ++ [l]) st, []).
(** In-place update of the list object at [a] *)
Definition store (a : nat) (l : list string) : M unit :=
  modify (λ st, set_heap (<[a := l]> (heap st)) st).

Definition nl : string := String "010"%char "".

(** [sorted(l)] on integers *)
Fixpoint insert_sorted (x : Z) (l : list Z) : list Z :=
  match l with
  | [] => [x]
  | y :: l' => if (x <=? y)%Z then x :: l else y :: insert_sorted x l'
  end.
Definition sorted (l : list Z) : list Z := foldr insert_sorted [] l.

(** [l[-2:]] *)
Definition last_two {A} (l : list A) : list A := drop (length l - 2) l.

(** ** The handlers *)

(** The sends of a loop
    [for cid, info in self.connected_clients.items(): if p(info): info["client_socket"].send(text)] *)
Definition broadcast (p : nat → Client → bool) (text : string) : M unit :=
  st ← get;
  emit ((λ ci, Send (client_socket ci.2) text)
          <$> filter (λ ci, p ci.1 ci.2 = true) (connected_clients st)).

Definition add_clients_groups
    (client_id : nat) (client_name : string) (client_name_id : nat)
    (client_group : string) (sock : nat) : M unit :=
  modify (λ st, set_client_ids (client_ids st + 1) st);;
  modify (λ st, set_connected_clients
    (dict_set client_id
       {| name := client_name; name_id := client_name_id;
          group := client_group; client_socket := sock |}
       (connected_clients st)) st);;
  st ← get;
  match dict_get client_group (groups st) with
  | None =>
      a ← alloc [client_name];
      modify (λ st, set_groups (dict_set client_group a (groups st)) st)
  | Some a =>
      if negb (py_in client_name (deref (heap st) a))
      then store a (deref (heap st) a ++ [client_name])
      else mret tt
  end;;
  st ← get;
  (if negb (dict_mem "default" (boards st))
   then modify (λ st, set_boards (dict_set "default" [] (boards st)) st)
   else mret tt);;
  st ← get;
  modify (λ st', set_boards
    (foldl (λ b g, if negb (dict_mem g b) then dict_set g [] b else b)
       (boards st') (dict_keys (groups st))) st').

Definition broadcast_client_join (client_id : nat) (client_name : string)
    : M unit :=
  broadcast (λ cid _, negb (bool_decide (cid = client_id)))
    (client_name +:+ " has joined the server (client ID #"
       +:+ pretty client_id +:+ "). ").

Definition handle_join (client_id : nat) (group : string) : M unit :=
  st ← get;
  c ← lift KeyError (dict_get client_id (connected_clients st));
  let client_name := name c in
  let sock := client_socket c in
  match dict_get group (groups st) with
  | None =>
      a ← alloc [client_name];
      modify (λ st, set_groups (dict_set group a (groups st)) st);;
      modify (λ st, set_boards (dict_set group [] (boards st)) st);;
      send sock ("Added to new group '" +:+ group +:+ "'.")
  | Some a =>
      if py_in client_name (deref (heap st) a) then
        send sock ("Already part of group '" +:+ group +:+ "'.")
      else
        store a (deref (heap st) a ++ [client_name]);;
        st ← get;
        let members := deref (heap st) a in
        broadcast
          (λ _ info, negb (bool_decide (name_id info = name_id c))
                     && py_in (name info) members)
          ("New member " +:+ client_name +:+ " has joined group '"
             +:+ group +:+ "'.");;
        b ← lift KeyError (dict_get group (boards st));
        let messages_text :=
          if bool_decide (0 < length b)%nat then
            foldl (λ text key,
                     text +:+ "Message ID: " +:+ Text.py_str key +:+ " + " +:+ nl)
              (nl +:+ "Previous messages:" +:+ nl)
              (last_two (sorted (dict_keys b)))
          else nl +:+ "No previous messages." in
        send sock ("Added to group '" +:+ group +:+ "'." +:+ nl
                     +:+ "Current Members: " +:+ Text.join ", " members
                     +:+ messages_text)
  end.

(** [today] is what [datetime.datetime.now().date()] returns at the call. *)
Definition handle_post (today : date) (client_id : nat)
    (group subject : string) (message : list string) : M unit :=
  st ← get;
  c ← lift KeyError (dict_get client_id (connected_clients st));
  let sender_name := name c in
  a ← lift KeyError (dict_get group (groups st));
  if negb (py_in sender_name (deref (heap st) a)) then
    send (client_socket c) "Error: Client not member of group."
  else
    b ← lift KeyError (dict_get group (boards st));
    let message_id := Z.of_nat (length b) in
    (* copy.deepcopy(self.groups[group]) *)
    snapshot ← alloc (deref (heap st) a);
    modify (λ st, set_boards
      (dict_set group
         (dict_set message_id
            {| sender := sender_name; date_posted := DateObj today;
               subject := subject; message := Text.join " " message;
               users_at_time_of_posting := snapshot |} b)
         (boards st)) st);;
    st ← get;
    broadcast (λ _ info, py_in (name info) (deref (heap st) a))
      ("New message posted in " +:+ group +:+ " by " +:+ sender_name
         +:+ " with ID#" +:+ Text.py_str message_id +:+ ".").

(** The reply of a successful read:
    [f"{sender} on {date} ({subject}): {message}"] *)
Definition render (m : Message) : string :=
  sender m +:+ " on " +:+ str_date (date_posted m) +:+ " (" +:+ subject m
    +:+ "): " +:+ message m.

Definition too_far : string :=
  "Error: You are trying to access a message from too far in the past from when you joined the current group. (Limit: 2)".

Definition not_found : string := "Error: Message ID does not exist.".

(** The test [message is not None] of the source always holds here: a board
    maps ids to message dicts. *)
Definition handle_message (client_id : nat) (group message_id : string)
    : M unit :=
  st ← get;
  c ← lift KeyError (dict_get client_id (connected_clients st));
  let sock := client_socket c in
  let sender_name := name c in
  a ← lift KeyError (dict_get group (groups st));
  if negb (py_in sender_name (deref (heap st) a)) then
    send sock "Error: Client not member of group."
  else
    try_except
      (b ← lift KeyError (dict_get group (boards st));
       k ← lift ValueError (Text.py_int message_id);
       m ← lift KeyError (dict_get k b);
       let users := deref (heap st) (users_at_time_of_posting m) in
       if negb (py_in sender_name users) then
         if py_in sender_name users then send sock (render m)
         else send sock too_far
       else send sock (render m))
      (send sock not_found).

Definition handle_leave (client_id : nat) (group : string) : M unit :=
  st ← get;
  c ← lift KeyError (dict_get client_id (connected_clients st));
  let sock := client_socket c in
  let sender_name := name c in
  a ← lift KeyError (dict_get group (groups st));
  if negb (py_in sender_name (deref (heap st) a)) then
    send sock ("Error: Client not member of group '" +:+ group +:+ "'.")
  else
    store a (list_remove sender_name (deref (heap st) a));;
    send sock ("You have left group '" +:+ group +:+ "'.");;
    st ← get;
    broadcast (λ _ info, py_in (name info) (deref (heap st) a))
      ("User " +:+ sender_name +:+ " has left group '" +:+ group +:+ "'.").

(** ** [open_connection]: the handshake and the request loop *)

Definition help_msg : string :=
  Text.join nl [
    "A %connect command followed by the address and port number of a running bulletin board server to connect to.";
    "A %join command to join the single message board.";
    "A %post command followed by the message subject and the message content or main body to post a message to the board.";
    "A %users command to retrieve a list of users in the same group.";
    "A %leave command to leave the group.";
    "A %message command followed by message ID to retrieve the content of the message.";
    "An %exit command to disconnect from the server and exit the client program.";
    "A %groups command to retrieve a list of all groups that can be joined.";
    "A %groupjoin command followed by the group id/name to join a specific group.";
    "A %grouppost command followed by the group id/name, the message subject, and the message content or main body to post a message to a message board owned by a specific group.";
    "A %groupusers command followed by the group id/name to retrieve a list of users in the given group.";
    "A %groupleave command followed by the group id/name to leave a specific group.";
    "A %groupmessage command followed by the group id/name and message ID to retrieve the content of the message posted earlier on a message board owned by a specific group."
  ].

(** The local variables of a connection's thread that the loop reads *)
Record Worker := {
  w_client_id : nat;
  w_client_name : string;
  w_client_socket : nat;
}.

(** The text after ["id " + str(client_id)] in the handshake reply;
    [None] when the variable [example_groups_message] was never bound. *)
Definition example_groups_message (st : Server) : option string :=
  let example_groups := take 5 (dict_keys (groups st)) in
  if bool_decide (0 < length example_groups)%nat then
    let text := " Current server groups: " +:+ Text.join ", " example_groups in
    Some (if bool_decide (5 < length example_groups)%nat
          then text +:+ "..." else text)
  else None.

(** [open_connection] up to the request loop.  [client_info] is the first
    frame received on [sock]; [client_name_id] is the identity of the name
    object made from it. *)
Definition open_connection_handshake
    (sock client_name_id : nat) (client_info : string) : M Worker :=
  let fields := Text.split " " client_info in
  client_name ← lift IndexError (fields !! 0%nat);
  client_group ← lift IndexError (fields !! 1%nat);
  st ← get;
  let client_id := client_ids st in
  add_clients_groups client_id client_name client_name_id client_group sock;;
  broadcast_client_join client_id client_name;;
  st ← get;
  text ← lift UnboundLocalError (example_groups_message st);
  send sock ("id " +:+ pretty client_id +:+ text);;
  mret {| w_client_id := client_id; w_client_name := client_name;
          w_client_socket := sock |}.

(** How one pass through the body of [while True] ends: at the end of the
    body (the loop reads the next frame), by [break] (the loop and the
    thread end; the socket and the registry entry stay), or by [return 0]
    of [exit]. *)
Inductive status := Continue | Break | Return0.

(** [self.handle_post(client_id, "default", *params)] and
    [self.handle_post(client_id, *params)]: the call binds
    [group, subject, *message]. *)
Definition call_handle_post (today : date) (client_id : nat)
    (args : list string) : M unit :=
  match args with
  | group :: subject :: message =>
      handle_post today client_id group subject message
  | _ => raise TypeError
  end.

(** [self.handle_message(client_id, "default", *params)] and
    [self.handle_message(client_id, *params)]: exactly [group, message_id]. *)
Definition call_handle_message (client_id : nat) (args : list string)
    : M unit :=
  match args with
  | [group; message_id] => handle_message client_id group message_id
  | _ => raise TypeError
  end.

(** One pass through the body of the request loop, for the frame [data]. *)
Definition open_connection_step (today : date) (w : Worker) (data : string)
    : M status :=
  let client_id := w_client_id w in
  let client_name := w_client_name w in
  let sock := w_client_socket w in
  if decide (data = "") then mret Break else
  let command := default "" (head (Text.split " " data)) in
  let params := tail (Text.split " " data) in
  if decide (command = "help") then
    send sock help_msg;; mret Continue
  else if decide (command = "join") then
    handle_join client_id "default";; mret Continue
  else if decide (command = "post") then
    if bool_decide (length params < 2)%nat then
      send sock "Error: Missing subject or message.";; mret Break
    else call_handle_post today client_id ("default" :: params);; mret Continue
  else if decide (command = "users") then
    st ← get;
    a ← lift KeyError (dict_get "default" (groups st));
    send sock ("Users in 'default': " +:+ Text.join ", " (deref (heap st) a));;
    mret Continue
  else if decide (command = "leave") then
    handle_leave client_id "default";; mret Continue
  else if decide (command = "message") then
    if bool_decide (length params < 1)%nat then
      send sock "Error: Missing message ID.";; mret Break
    else call_handle_message client_id ("default" :: params);; mret Continue
  else if decide (command = "exit") then
    send sock "You have been disconnected from the server.";;
    st ← get;
    c ← lift KeyError (dict_get client_id (connected_clients st));
    emit [Close (client_socket c)];;
    modify (λ st, set_connected_clients
                    (dict_pop client_id (connected_clients st)) st);;
    mret Return0
  else if decide (command = "groups") then
    st ← get;
    send sock (Text.drop_last2
                 (foldl (λ response g, response +:+ g +:+ ", ")
                    "Available groups: " (dict_keys (groups st))));;
    mret Continue
  else if decide (command = "groupjoin") then
    match params with
    | [g] => handle_join client_id g;; mret Continue
    | _ =>
        send sock "Invalid %groupsjoin command. Please supply a group name to join.";;
        mret Break
    end
  else if decide (command = "grouppost") then
    if bool_decide (length params < 3)%nat then
      send sock "Error: Missing group, subject, or message.";; mret Break
    else call_handle_post today client_id params;; mret Continue
  else if decide (command = "groupusers") then
    st ← get;
    match params with
    | g :: _ =>
        match dict_get g (groups st) with
        | Some a =>
            if negb (py_in client_name (deref (heap st) a)) then
              send sock ("Error: Client not member of group '" +:+ g +:+ "'.");;
              mret Break
            else
              send sock ("Users in '" +:+ g +:+ "': "
                           +:+ Text.join ", " (deref (heap st) a));;
              mret Continue
        | None => send sock "Error: Invalid group name";; mret Break
        end
    | [] => send sock "Error: Invalid group name";; mret Break
    end
  else if decide (command = "groupleave") then
    st ← get;
    match params with
    | g :: _ =>
        if dict_mem g (groups st) then handle_leave client_id g;; mret Continue
        else send sock "Error: Invalid group name.";; mret Break
    | [] => send sock "Error: Invalid group name.";; mret Break
    end
  else if decide (command = "groupmessage") then
    if bool_decide (length params < 2)%nat then
      send sock "Error: Missing group ID or message ID.";; mret Break
    else call_handle_message client_id params;; mret Continue
  else
    send sock "Invalid command.";; mret Continue.

(** ** The server as a transition system

    The threads of the server interleave at the grain of one handshake or
    one pass through a request loop.  [workers] are the threads whose loop
    is still running, by client id. *)

Record System := {
  server : Server;
  workers : list (nat * Worker);
}.

Inductive event :=
  (** a connection is accepted on [sock] and its first frame arrives *)
  | Accept (sock client_name_id : nat) (client_info : string)
  (** the thread of [client_id] receives [data]; the clock says [today] *)
  | Recv (client_id : nat) (data : string) (today : date).

Definition step (sys : System) (e : event) : System * list action :=
  match e with
  | Accept sock client_name_id client_info =>
      match open_connection_handshake sock client_name_id client_info
              (server sys) with
      | (Val w, st, out) =>
          ({| server := st;
              workers := dict_set (w_client_id w) w (workers sys) |}, out)
      | (Raise _, st, out) =>
          ({| server := st; workers := workers sys |}, out)
      end
  | Recv client_id data today =>
      match dict_get client_id (workers sys) with
      | None => (sys, [])
      | Some w =>
          match open_connection_step today w data (server sys) with
          | (Val Continue, st, out) =>
              ({| server := st; workers := workers sys |}, out)
          | (_, st, out) =>
              ({| server := st;
                  workers := dict_pop client_id (workers sys) |}, out)
          end
      end
  end.

(** The state after a sequence of events, and everything sent meanwhile *)
Fixpoint run (sys : System) (evs : list event) : System * list action :=
  match evs with
  | [] => (sys, [])
  | e :: evs' =>
      let '(sys1, o1) := step sys e in
      let '(sys2, o2) := run sys1 evs' in
      (sys2, o1 ++ o2)
  end.

(** The server right after [Server(host, port)], no connection yet *)
Definition boot : System := {| server := init; workers := [] |}.

(** ** Shutdown and startup

    [json.dump] and [json.load] are taken at the level of the JSON value:
    an object is the list of its members in order, an array a list, a
    string a string; writing a value as text and parsing the text back is
    the library's business.  What the server adds is modelled: integer
    keys are written as [str(key)], dates go through [default_serializer],
    and the loop after loading turns the keys of each board back with
    [int]. *)

(** A message as boards.json holds it *)
Record MessageJson := {
  j_sender : string;
  j_date : string;
  j_subject : string;
  j_message : string;
  j_users_at_time_of_posting : list string;
}.

(** [default_serializer], reached for the [date] objects only *)
Definition default_serializer (d : date) : string := isoformat d.

(** What [json.dump] writes for a message of a board *)
Definition dump_message (h : list (list string)) (m : Message) : MessageJson :=
  {| j_sender := sender m;
     j_date := match date_posted m with
               | DateObj d => default_serializer d
               | DateStr s => s
               end;
     j_subject := subject m;
     j_message := message m;
     j_users_at_time_of_posting := deref h (users_at_time_of_posting m) |}.

(** The members of a group dictionary and of a board, with the lists read
    from the store *)
Definition group_contents (h : list (list string)) (d : list (string * nat))
    : list (string * list string) :=
  (λ ga, (ga.1, deref h ga.2)) <$> d.

Definition board_contents {K} (h : list (list string))
    (b : list (K * Message)) : list (K * MessageJson) :=
  (λ km, (km.1, dump_message h km.2)) <$> b.

(** [server_shutdown]: the values written to groups.json and boards.json *)
Definition server_shutdown (st : Server)
    : list (string * list string)
      * list (string * list (string * MessageJson)) :=
  (group_contents (heap st) (groups st),
   (λ gb, (gb.1, (λ km, (Text.py_str km.1, km.2))
                   <$> board_contents (heap st) gb.2)) <$> boards st).

(** [json.load] of groups.json: a dictionary of new list objects *)
Definition load_groups (gj : list (string * list string))
    (d : list (string * nat)) (h : list (list string))
    : list (string * nat) * list (list string) :=
  foldl (λ dh gl, (dict_set gl.1 (length dh.2) dh.1, dh.2 ++ [gl.2])) (d, h) gj.

Definition load_message (mj : MessageJson) (a : nat) : Message :=
  {| sender := j_sender mj; date_posted := DateStr (j_date mj);
     subject := j_subject mj; message := j_message mj;
     users_at_time_of_posting := a |}.

(** [json.load] of one board of boards.json, keys still strings *)
Definition load_board (msgs : list (string * MessageJson))
    (b : list (string * Message)) (h : list (list string))
    : list (string * Message) * list (list string) :=
  foldl (λ bh km,
           (dict_set km.1 (load_message km.2 (length bh.2)) bh.1,
            bh.2 ++ [j_users_at_time_of_posting km.2]))
    (b, h) msgs.

Definition load_boards (bj : list (string * list (string * MessageJson)))
    (d : list (string * list (string * Message))) (h : list (list string))
    : list (string * list (string * Message)) * list (list string) :=
  foldl (λ dh gb,
           let bh := load_board gb.2 [] dh.2 in
           (dict_set gb.1 bh.1 dh.1, bh.2))
    (d, h) bj.

(** [{int(k): v for k, v in value.items()}]; [None] is the [ValueError]
    of [int]. *)
Definition int_keys (b : list (string * Message))
    : option (list (Z * Message)) :=
  foldl (λ acc kv,
           d ← acc; k ← Text.py_int kv.1; Some (dict_set k kv.2 d))
    (Some []) b.

(** [server_startup] up to the accept loop, from the state [__init__]
    leaves.  A file is [None] when it does not exist; the result is [None]
    when the key conversion raises.  Without boards.json the boards are
    those of [__init__], whose keys are integers already. *)
Definition server_startup
    (groups_file : option (list (string * list string)))
    (boards_file : option (list (string * list (string * MessageJson))))
    : option Server :=
  let gh := match groups_file with
            | Some gj => load_groups gj [] (heap init)
            | None => (groups init, heap init)
            end in
  match boards_file with
  | Some bj =>
      let bh := load_boards bj [] gh.2 in
      bs ← mapM (λ gb, b ← int_keys gb.2; Some (gb.1, b)) bh.1;
      Some {| client_ids := 0; connected_clients := [];
              groups := gh.1; boards := bs; heap := bh.2 |}
  | None =>
      Some {| client_ids := 0; connected_clients := [];
              groups := gh.1; boards := boards init; heap := gh.2 |}
  end.

(** * Vocabulary of the statements *)

(** ** The writes of the server

    Every change a handler makes to the state is one of six kinds.  The
    invariants below are proved once for these and carried over to the
    handlers, the steps and the runs. *)

Inductive write : Server → Server → Prop :=
  | write_ids st n :
      write st (set_client_ids n st)
  | write_clients st cs :
      write st (set_connected_clients cs st)
  (** [self.groups[g].append(..)], [self.groups[g].remove(..)] *)
  | write_members st g a l :
      dict_get g (groups st) = Some a →
      write st (set_heap (<[a := l]> (heap st)) st)
  (** [self.groups[g] = [client_name]] for a new group *)
  | write_new_group st g l :
      dict_get g (groups st) = None →
      write st (set_groups (dict_set g (length (heap st)) (groups st))
                  (set_heap (heap st ++ [l]) st))
  (** [self.boards[g] = {}] *)
  | write_new_board st g :
      write st (set_boards (dict_set g [] (boards st)) st)
  (** the assignment of [handle_post] *)
  | write_post st g a b m :
      dict_get g (groups st) = Some a →
      dict_get g (boards st) = Some b →
      users_at_time_of_posting m = length (heap st) →
      write st (set_boards
                  (dict_set g (dict_set (Z.of_nat (length b)) m b) (boards st))
                  (set_heap (heap st ++ [deref (heap st) a]) st)).

Abbreviation writes := (rtc write).

(** A computation all of whose state changes are writes *)
Definition sound {A} (m : M A) : Prop :=
  ∀ st r st' out, m st = (r, st', out) → writes st st'.

(** ** Invariants *)

(** The ids of a board, in the order the messages went in, are
    0, 1, ..., size - 1. *)
Definition gapless_board (b : list (Z * Message)) : Prop :=
  dict_keys b = Z.of_nat <$> seq 0 (length b).

Definition gapless (st : Server) : Prop :=
  ∀ g b, (g, b) ∈ boards st → gapless_board b.

(** The member list of every group is an allocated list object. *)
Definition allocated (st : Server) : Prop :=
  ∀ g a, (g, a) ∈ groups st → (a < length (heap st))%nat.

(** An allocated list object that is the member list of no group *)
Definition frozen (st : Server) (x : nat) : Prop :=
  (x < length (heap st))%nat ∧ ∀ g a, (g, a) ∈ groups st → a ≠ x.

(** The snapshot of every message is a list object of its own, apart from
    the member lists that [append] and [remove] update in place. *)
Definition separated (st : Server) : Prop :=
  allocated st
  ∧ ∀ g b k m, (g, b) ∈ boards st → (k, m) ∈ b →
               frozen st (users_at_time_of_posting m).

(** The dictionaries of a state have no repeated key. *)
Definition well_keyed (st : Server) : Prop :=
  NoDup (dict_keys (groups st))
  ∧ NoDup (dict_keys (boards st))
  ∧ ∀ g b, (g, b) ∈ boards st → NoDup (dict_keys b).

(** ** Notifications and parameter counts *)

(** The notification of a post:
    [f"New message posted in {group} by {sender_name} with ID#{message_id}."] *)
Definition post_notice (group sender_name : string) (message_id : Z) : string :=
  "New message posted in " +:+ group +:+ " by " +:+ sender_name
    +:+ " with ID#" +:+ Text.py_str message_id +:+ ".".

(** The message a post stores *)
Definition posted (today : date) (sender_name subject : string)
    (message : list string) (snapshot : nat) : Message :=
  {| sender := sender_name; date_posted := DateObj today; subject := subject;
     message := Text.join " " message;
     users_at_time_of_posting := snapshot |}.

(** The reading of C2 as stated: every other registered member is notified
    and the sender is not. *)
Definition post_notice_skips_sender : Prop :=
  ∀ today st client_id group subject message c a b r st' out,
    dict_get client_id (connected_clients st) = Some c →
    dict_get group (groups st) = Some a →
    name c ∈ deref (heap st) a →
    dict_get group (boards st) = Some b →
    handle_post today client_id group subject message st = (r, st', out) →
    let text := post_notice group (name c) (Z.of_nat (length b)) in
    (∀ cid' c', (cid', c') ∈ connected_clients st → cid' ≠ client_id →
                name c' ∈ deref (heap st) a →
                Send (client_socket c') text ∈ out)
    ∧ Send (client_socket c) text ∉ out.

(** The parameter-count tests of the request loop that fail for [data] *)
Definition wrong_arity (data : string) : bool :=
  match Text.split " " data with
  | command :: params =>
      if decide (command = "post") then bool_decide (length params < 2)%nat
      else if decide (command = "message") then
        bool_decide (length params < 1)%nat
      else if decide (command = "groupjoin") then
        negb (bool_decide (length params = 1%nat))
      else if decide (command = "grouppost") then
        bool_decide (length params < 3)%nat
      else if decide (command = "groupmessage") then
        bool_decide (length params < 2)%nat
      else false
  | [] => false
  end.

(** ** Some states *)

(** alice is connected and the only member of "default", whose board is
    empty. *)
Definition alice_in_default : Server :=
  {| client_ids := 1;
     connected_clients :=
       [(0%nat, {| name := "alice"; name_id := 0; group := "default";
                   client_socket := 7 |})];
     groups := [("default", 0%nat)]; boards := [("default", [])];
     heap := [["alice"]] |}.

Definition alice_worker : Worker :=
  {| w_client_id := 0; w_client_name := "alice"; w_client_socket := 7 |}.

Definition day0 : date := {| year := 2024; month := 11; day := 5 |}.

(** alice and bob are connected and both in book-club; message 0 was posted
    when alice was its only member. *)
Definition club_state : Server :=
  {| client_ids := 2;
     connected_clients :=
       [(0%nat, {| name := "alice"; name_id := 100; group := "book-club";
                   client_socket := 10 |});
        (1%nat, {| name := "bob"; name_id := 101; group := "default";
                   client_socket := 11 |})];
     groups := [("default", 0%nat); ("book-club", 1%nat)];
     boards := [("default", []);
                ("book-club",
                 [(0, {| sender := "alice"; date_posted := DateObj day0;
                         subject := "Welcome"; message := "Hi all";
                         users_at_time_of_posting := 2 |})])];
     heap := [["bob"]; ["alice"; "bob"]; ["alice"]] |}.

(** * The client (client.py)

    The terminal loop and the reader thread of the client run against
    sockets, events and a second thread; what is embedded here is what
    they compute: the action one line of input leads to, and what one
    received frame does. *)

(** [s[1:]] *)
Definition drop_first (s : string) : string :=
  match s with
  | "" => ""
  | String _ s' => s'
  end.

(** [main]: [username.replace(" ", "-")] *)
Fixpoint replace_spaces (s : string) : string :=
  match s with
  | "" => ""
  | String a s' =>
      String (if decide (a = " "%char) then "-"%char else a) (replace_spaces s')
  end.

(** [main]: the group given to [Client], "default" for an empty answer *)
Definition group_or_default (typed : string) : string :=
  if decide (typed = "") then "default" else typed.

(** What one pass of [client_terminal_prompt] does with a line of input *)
Inductive client_action :=
  (** [print(text)] *)
  | PrintLine (text : string)
  (** [self.client_socket.send(frame.encode())] *)
  | SendFrame (frame : string)
  (** "Connecting to ..." is printed, a new socket is connected to
      [(host, port)], the reader thread is started and [hello] is sent;
      the loop then waits for the reader thread and prints what it got *)
  | ConnectAndSend (host : string) (port : Z) (hello : string)
  (** [self.client_disconnect_from_server()] *)
  | Disconnect
  (** [self.client_shutdown()] *)
  | Shutdown
  (** [int(u_parameters[1])] raised [ValueError] *)
  | InputValueError.

Definition only_when_connected (u_command : string) : string :=
  "The command you have entered, '" +:+ u_command
    +:+ "', is only available when the client is connected." +:+ nl
    +:+ "Please connect to a server using '%connect host port' and try again.".

Definition client_help : string :=
  "A %connect command followed by the address and port number of a running bulletin board server to connect to."
    +:+ nl +:+ "An %exit command to exit the client program.".

(** One pass through the body of the loop of [client_terminal_prompt], for
    the line [u_input], when [self.id] is [id] ([-1] when not connected). *)
Definition client_terminal_step (username group : string) (id : Z)
    (u_input : string) : client_action :=
  let u_command := default "" (head (Text.split " " u_input)) in
  let u_parameters := tail (Text.split " " u_input) in
  if negb (String.prefix "%" u_command) then PrintLine "Invalid command."
  else if (id <? 0)
          && negb (bool_decide
                     (drop_first u_command ∈ ["help"; "connect"; "exit"]))
  then PrintLine (only_when_connected u_command)
  else
    let verb := drop_first u_command in
    if decide (verb = "help") then
      if (-1 <? id) then SendFrame verb else PrintLine client_help
    else if decide (verb = "connect") then
      if (-1 <? id) then
        PrintLine "You are already connected to a server. If you wish to switch servers, please disconnect and try again."
      else
        match u_parameters with
        | host :: port :: _ =>
            match Text.py_int port with
            | Some p => ConnectAndSend host p (username +:+ " " +:+ group)
            | None => InputValueError
            end
        | _ =>
            PrintLine ("Incorrect parameters. Please supply an IP number and port number of the bulletin board."
                     +:+ nl +:+ "Example: %connect 127.0.0.1 2048")
        end
    else if decide (verb = "exit") then
      if (-1 <? id) then Disconnect else Shutdown
    else
      if (-1 <? id) then
        SendFrame (foldl (λ command_str param, command_str +:+ " " +:+ param)
                     verb u_parameters)
      else PrintLine "Please connect to a server first.".

(** What one pass of [client_read_server_response] does with a frame *)
Inductive reader_action :=
  (** [self.id] and [self.recent_groups] are set, [data_read] is set *)
  | SetId (id : Z) (recent_groups : string)
  (** [print(data)], [data_read] is set *)
  | Display (data : string)
  (** empty data: nothing *)
  | Idle
  (** [int(data.split(" ")[1])] raised [ValueError]: the thread ends *)
  | ReaderValueError.

Definition client_read_server_response_step (data : string) : reader_action :=
  if String.prefix "id " data then
    match Text.py_int (default "" (Text.split " " data !! 1%nat)) with
    | Some id => SetId id (Text.join " " (drop 2 (Text.split " " data)))
    | None => ReaderValueError
    end
  else if negb (bool_decide (data = "")) then Display data
  else Idle.

(** The character [c] does not occur in [s]. *)
Fixpoint no_char (c : ascii) (s : string) : bool :=
  match s with
  | "" => true
  | String a s' => negb (bool_decide (a = c)) && no_char c s'
  end.

(** * Vocabulary of the further properties *)


(** The verbs of the request loop *)
Definition verbs : list string :=
  ["help"; "join"; "post"; "users"; "leave"; "message"; "exit"; "groups";
   "groupjoin"; "grouppost"; "groupusers"; "groupleave"; "groupmessage"].


(** The text listing ids under "Previous messages:" in the reply to a join *)
Definition previous_messages (ids : list Z) : string :=
  foldl (λ text key,
           text +:+ "Message ID: " +:+ Text.py_str key +:+ " + " +:+ nl)
    (nl +:+ "Previous messages:" +:+ nl) ids.

(** ** The writes of the server, with what the code has tested

    [grow] refines [write]: each constructor is an assignment of the code
    together with what the code has tested when it reaches it.  A group
    is made without its board by the handshake only ([add_clients_groups],
    which makes the missing boards at its end); [grow false] leaves that
    constructor out. *)
Inductive grow (handshake : bool) : Server → Server → Prop :=
  (** [self.client_ids += 1] *)
  | grow_ids st :
      grow handshake st (set_client_ids (client_ids st + 1) st)
  (** [self.connected_clients[client_id] = {...}] *)
  | grow_connect st cid c :
      (cid < client_ids st)%nat →
      grow handshake st
        (set_connected_clients (dict_set cid c (connected_clients st)) st)
  (** [del self.connected_clients[client_id]] *)
  | grow_exit st cid :
      grow handshake st
        (set_connected_clients (dict_pop cid (connected_clients st)) st)
  (** [self.groups[g].append(x)], after [x not in self.groups[g]] *)
  | grow_append st g a x :
      dict_get g (groups st) = Some a →
      x ∉ deref (heap st) a →
      grow handshake st
        (set_heap (<[a := deref (heap st) a ++ [x]]> (heap st)) st)
  (** [self.groups[g].remove(x)] *)
  | grow_remove st g a x :
      dict_get g (groups st) = Some a →
      grow handshake st
        (set_heap (<[a := list_remove x (deref (heap st) a)]> (heap st)) st)
  (** [self.groups[g] = [x]] in [add_clients_groups] *)
  | grow_group st g x :
      handshake = true →
      dict_get g (groups st) = None →
      grow handshake st
        (set_groups (dict_set g (length (heap st)) (groups st))
           (set_heap (heap st ++ [[x]]) st))
  (** [self.groups[g] = [x]; self.boards[g] = {}] in [handle_join] *)
  | grow_create st g x :
      dict_get g (groups st) = None →
      grow handshake st
        (set_boards (dict_set g [] (boards st))
           (set_groups (dict_set g (length (heap st)) (groups st))
              (set_heap (heap st ++ [[x]]) st)))
  (** [self.boards[g] = {}] for a group [g], after [g not in self.boards] *)
  | grow_board st g :
      is_Some (dict_get g (groups st)) →
      dict_get g (boards st) = None →
      grow handshake st (set_boards (dict_set g [] (boards st)) st)
  (** the assignment of [handle_post] *)
  | grow_post st g a b m :
      dict_get g (groups st) = Some a →
      dict_get g (boards st) = Some b →
      users_at_time_of_posting m = length (heap st) →
      grow handshake st
        (set_boards
           (dict_set g (dict_set (Z.of_nat (length b)) m b) (boards st))
           (set_heap (heap st ++ [deref (heap st) a]) st)).

(** A computation all of whose state changes are such *)
Definition tracked (handshake : bool) {A} (m : M A) : Prop :=
  ∀ st r st' out, m st = (r, st', out) → rtc (grow handshake) st st'.

(** ** Invariants of the registry and of the groups *)

(** Every registered id is below the counter that gives the next one. *)
Definition ids_below (st : Server) : Prop :=
  ∀ cid c, (cid, c) ∈ connected_clients st → (cid < client_ids st)%nat.

(** No name is twice in the member list of a group. *)
Definition members_once (st : Server) : Prop :=
  ∀ g a, (g, a) ∈ groups st → NoDup (deref (heap st) a).

(** "default" has a board, and every board is the board of a group. *)
Definition boards_of_groups (st : Server) : Prop :=
  is_Some (dict_get "default" (boards st))
  ∧ ∀ g, is_Some (dict_get g (boards st)) → is_Some (dict_get g (groups st)).

(** Every group has a board. *)
Definition groups_have_boards (st : Server) : Prop :=
  ∀ g, is_Some (dict_get g (groups st)) → is_Some (dict_get g (boards st)).

(** What holds of the server between any two events *)
Definition consistent (st : Server) : Prop :=
  gapless st ∧ separated st ∧ well_keyed st ∧ ids_below st ∧ members_once st
  ∧ boards_of_groups st ∧ groups_have_boards st.

(** * Properties *)

(** ** Dictionaries *)

Section DictFacts.
Context {K V : Type} `{!EqDecision K}.
Implicit Types (k : K) (v : V) (d : list (K * V)).

Lemma dict_get_elem_of k v d : dict_get k d = Some v → (k, v) ∈ d.
Proof.
  induction d as [|[k' v'] d IH]; simpl; [done|].
  case_decide; intros; simplify_eq; [left | right; auto].
Qed.

Lemma dict_get_set_eq k v d : dict_get k (dict_set k v d) = Some v.
Proof.
  induction d as [|[k' v'] d IH]; simpl; repeat (case_decide; simpl); done.
Qed.

Lemma dict_get_set_ne k k' v d :
  k ≠ k' → dict_get k' (dict_set k v d) = dict_get k' d.
Proof.
  intros Hne.
  induction d as [|[k1 v1] d IH]; simpl;
    repeat (case_decide; simpl); congruence.
Qed.

Lemma dict_set_elem_of k v k' v' d :
  (k', v') ∈ dict_set k v d → (k', v') = (k, v) ∨ (k', v') ∈ d.
Proof.
  induction d as [|[k1 v1] d IH]; simpl.
  - intros ->%list_elem_of_singleton. by left.
  - case_decide; subst; rewrite !elem_of_cons; intros [?|?]; auto.
    destruct IH as [?|?]; auto.
Qed.

Lemma dict_set_keys_absent k v d :
  dict_get k d = None → dict_set k v d = d ++ [(k, v)].
Proof.
  induction d as [|[k1 v1] d IH]; simpl; [done|].
  case_decide; [done|]. intros Hd. by rewrite IH.
Qed.

Lemma dict_get_None_keys k d : dict_get k d = None ↔ k ∉ dict_keys d.
Proof.
  unfold dict_keys.
  induction d as [|[k1 v1] d IH]; simpl.
  - split; [intros _; apply not_elem_of_nil | done].
  - case_decide; subst; rewrite not_elem_of_cons, <- IH; simpl.
    + split; [done | intros [? _]; done].
    + split; [done | intros [_ ?]; done].
Qed.

Lemma dict_mem_true k d : dict_mem k d = true ↔ is_Some (dict_get k d).
Proof. unfold dict_mem. apply bool_decide_eq_true. Qed.

Lemma dict_mem_false k d : dict_mem k d = false ↔ dict_get k d = None.
Proof.
  unfold dict_mem. rewrite bool_decide_eq_false, eq_None_not_Some. done.
Qed.
End DictFacts.

(** ** Running the monad *)

Ltac munfold :=
  unfold send, store, broadcast, lift in *;
  unfold mbind, M_bind, mret, M_ret, bind, ret, raise, get, modify, emit,
    alloc, try_except in *.

Lemma py_in_true x l : py_in x l = true ↔ x ∈ l.
Proof. apply bool_decide_eq_true. Qed.

Lemma py_in_false x l : py_in x l = false ↔ x ∉ l.
Proof. apply bool_decide_eq_false. Qed.

Lemma deref_lt h a x : x ∈ deref h a → (a < length h)%nat.
Proof.
  unfold deref. destruct (h !! a) eqn:E; simpl.
  - intros _. by eapply lookup_lt_Some.
  - intros []%elem_of_nil.
Qed.

Lemma deref_app h l a : (a < length h)%nat → deref (h ++ [l]) a = deref h a.
Proof. intros. unfold deref. by rewrite lookup_app_l. Qed.

(** ** Reading a message *)

(** The visibility test of [handle_message], once the caller is a member
    and the id names a message [m] of the board. *)
Lemma handle_message_found st client_id group message_id c a b k m :
  dict_get client_id (connected_clients st) = Some c →
  dict_get group (groups st) = Some a →
  name c ∈ deref (heap st) a →
  dict_get group (boards st) = Some b →
  Text.py_int message_id = Some k →
  dict_get k b = Some m →
  handle_message client_id group message_id st =
    (Val tt, st,
     [Send (client_socket c)
        (if py_in (name c) (deref (heap st) (users_at_time_of_posting m))
         then render m else too_far)]).
Proof.
  intros Hc Ha Hin Hb Hk Hm. apply py_in_true in Hin.
  unfold handle_message. munfold.
  rewrite Hc. simpl. rewrite Ha. simpl. rewrite Hin. simpl.
  rewrite Hb. simpl. rewrite Hk. simpl. rewrite Hm. simpl.
  by destruct (py_in _ (deref _ (users_at_time_of_posting m))).
Qed.



(** ** The request loop *)

(** Decide the comparisons of a known command word with the verbs. *)
Ltac verb :=
  repeat match goal with
    | |- context [decide (?x = ?y)] =>
        destruct (decide (x = y)); [try discriminate | try congruence];
        cbv iota
    end.

(** Binding a computation whose result is known *)
Lemma bind_val {A B} (m : M A) (f : A → M B) st a st1 o1 :
  m st = (Val a, st1, o1) →
  (m ≫= f) st =
    match f a st1 with (r, st2, o2) => (r, st2, o1 ++ o2) end.
Proof. intros H. munfold. by rewrite H. Qed.



(** ** Joining a group one is already in *)

Lemma handle_join_member st client_id group c a :
  dict_get client_id (connected_clients st) = Some c →
  dict_get group (groups st) = Some a →
  name c ∈ deref (heap st) a →
  handle_join client_id group st =
    (Val tt, st,
     [Send (client_socket c) ("Already part of group '" +:+ group +:+ "'.")]).
Proof.
  intros Hc Ha Hin. apply py_in_true in Hin.
  unfold handle_join. munfold.
  rewrite Hc. simpl. rewrite Ha. by rewrite Hin.
Qed.

(** C8. A join ([join ...], which joins "default", or [groupjoin <group>])
    of an existing group by a caller whose name is already in it is
    answered with "Already part of group '<group>'."; that reply to the
    caller is the only thing sent (no broadcast), the whole server state is
    the one before (the code keeps no join points), and the loop goes on. *)
Theorem join_when_member_changes_nothing today w data st group c a :
  ((∃ params, Text.split " " data = "join" :: params) ∧ group = "default"
   ∨ Text.split " " data = ["groupjoin"; group]) →
  dict_get (w_client_id w) (connected_clients st) = Some c →
  dict_get group (groups st) = Some a →
  name c ∈ deref (heap st) a →
  open_connection_step today w data st =
    (Val Continue, st,
     [Send (client_socket c) ("Already part of group '" +:+ group +:+ "'.")]).
Proof.
  intros Hdata Hc Ha Hin.
  pose proof (handle_join_member _ _ _ _ _ Hc Ha Hin) as Hjoin.
  unfold open_connection_step. cbv zeta.
  destruct Hdata as [[[params Hsplit] ->]|Hsplit];
    (destruct (decide (data = "")) as [->|_]; [discriminate Hsplit|]);
    rewrite Hsplit; simpl; verb;
    by rewrite (bind_val _ _ _ _ _ _ Hjoin).
Qed.

Lemma join_when_member_changes_nothing_witness :
  open_connection_step day0 alice_worker "groupjoin default" alice_in_default
  = (Val Continue, alice_in_default,
     [Send 7%nat "Already part of group 'default'."]).
Proof.
  apply (join_when_member_changes_nothing day0 alice_worker
           "groupjoin default" alice_in_default "default"
           {| name := "alice"; name_id := 0; group := "default";
              client_socket := 7 |} 0%nat).
  - right. reflexivity.
  - reflexivity.
  - reflexivity.
  - vm_compute. left.
Defined.

(** ** Posting *)

(** What [handle_post] does for a member of a group that has a board: a new
    list object holds a copy of the member list, the message goes into the
    board under the board's size, and every registry entry whose name is in
    the group is notified. *)
Lemma handle_post_member today st client_id group subject message c a b :
  dict_get client_id (connected_clients st) = Some c →
  dict_get group (groups st) = Some a →
  name c ∈ deref (heap st) a →
  dict_get group (boards st) = Some b →
  handle_post today client_id group subject message st =
    (Val tt,
     set_boards
       (dict_set group
          (dict_set (Z.of_nat (length b))
             (posted today (name c) subject message (length (heap st))) b)
          (boards st))
       (set_heap (heap st ++ [deref (heap st) a]) st),
     (λ ci : nat * Client,
        Send (client_socket ci.2)
          (post_notice group (name c) (Z.of_nat (length b))))
       <$> filter (λ ci : nat * Client,
                     py_in (name ci.2) (deref (heap st) a) = true)
             (connected_clients st)).
Proof.
  intros Hc Ha Hin Hb. pose proof (deref_lt _ _ _ Hin) as Hlt.
  apply py_in_true in Hin.
  unfold handle_post. munfold.
  rewrite Hc. simpl. rewrite Ha. simpl. rewrite Hin. simpl.
  rewrite Hb. simpl. rewrite (deref_app _ _ _ Hlt). done.
Qed.

(** C2, counterexample. alice, the only member of "default", posts: the one
    notification goes to her own socket. *)
Lemma post_notice_reaches_sender : ¬ post_notice_skips_sender.
Proof.
  intros H.
  destruct (H day0 alice_in_default 0%nat "default" "s" ["b"]
              {| name := "alice"; name_id := 0; group := "default";
                 client_socket := 7 |} 0%nat []
              _ _ _ eq_refl eq_refl ltac:(vm_compute; left) eq_refl eq_refl)
    as [_ Hnot].
  apply Hnot. vm_compute. left.
Qed.

(** C2, as the code has it. A post by a member of a group that has a board
    sends the notification to exactly the registry entries whose name is a
    current member of the group, in registry order, once each, the
    sender's own entry included (it is the only reply the sender gets). *)
Theorem post_notice_recipients
    today st client_id group subject message c a b :
  dict_get client_id (connected_clients st) = Some c →
  dict_get group (groups st) = Some a →
  name c ∈ deref (heap st) a →
  dict_get group (boards st) = Some b →
  ∃ st',
    let text := post_notice group (name c) (Z.of_nat (length b)) in
    let out := (λ ci : nat * Client, Send (client_socket ci.2) text)
                 <$> filter (λ ci : nat * Client,
                               name ci.2 ∈ deref (heap st) a)
                       (connected_clients st) in
    handle_post today client_id group subject message st = (Val tt, st', out)
    ∧ Send (client_socket c) text ∈ out
    ∧ (∀ cid' c', (cid', c') ∈ connected_clients st →
                  name c' ∈ deref (heap st) a →
                  Send (client_socket c') text ∈ out).
Proof.
  intros Hc Ha Hin Hb. eexists. cbv zeta.
  rewrite (handle_post_member _ _ _ _ _ _ _ _ _ Hc Ha Hin Hb).
  assert (∀ cid' c', (cid', c') ∈ connected_clients st →
            name c' ∈ deref (heap st) a →
            Send (client_socket c')
              (post_notice group (name c) (Z.of_nat (length b)))
            ∈ (λ ci : nat * Client, Send (client_socket ci.2)
                 (post_notice group (name c) (Z.of_nat (length b))))
                <$> filter (λ ci : nat * Client,
                              name ci.2 ∈ deref (heap st) a)
                      (connected_clients st)) as Hall.
  { intros cid' c' Hel Hmem.
    apply (list_elem_of_fmap_2' _ _ (cid', c')); [|done].
    apply list_elem_of_filter. done. }
  split_and!.
  - f_equal. f_equal. apply list_filter_iff. intros [cid' c']. simpl.
    apply py_in_true.
  - eapply Hall; [by apply dict_get_elem_of|done].
  - done.
Qed.

Lemma post_notice_recipients_witness :
  ∃ st',
    let text := post_notice "default" "alice" 0 in
    let out := (λ ci : nat * Client, Send (client_socket ci.2) text)
                 <$> filter (λ ci : nat * Client,
                               name ci.2 ∈ deref (heap alice_in_default) 0)
                       (connected_clients alice_in_default) in
    handle_post day0 0 "default" "s" ["b"] alice_in_default
      = (Val tt, st', out)
    ∧ Send 7%nat text ∈ out
    ∧ (∀ cid' c', (cid', c') ∈ connected_clients alice_in_default →
                  name c' ∈ deref (heap alice_in_default) 0 →
                  Send (client_socket c') text ∈ out).
Proof.
  apply (post_notice_recipients day0 alice_in_default 0%nat "default" "s"
           ["b"] {| name := "alice"; name_id := 0; group := "default";
                    client_socket := 7 |} 0%nat []).
  - reflexivity.
  - reflexivity.
  - vm_compute. left.
  - reflexivity.
Defined.

(** ** Requests with too few or too many parameters *)

(** Each of them sends one error text to the caller, leaves the state as it
    is, and leaves the loop by [break]. *)
Lemma wrong_arity_breaks today w data st :
  wrong_arity data = true →
  ∃ text, open_connection_step today w data st =
            (Val Break, st, [Send (w_client_socket w) text]).
Proof.
  unfold wrong_arity, open_connection_step. cbv zeta.
  destruct (decide (data = "")) as [->|_]; [done|].
  destruct (Text.split " " data) as [|command params]; [done|]. simpl.
  repeat (case_decide; subst; try discriminate);
    try (intros [=]; fail); intros Hlen; try rewrite Hlen.
  all: try (by eexists).
  destruct params as [|? [|? ?]]; [|by exfalso|]; by eexists.
Qed.

(** C3, at a failing input. alice connects and sends [post onlysubject]
    and then [users]: the server sends the error text for the short [post],
    keeps its state, and the loop of alice's thread is over: the [users]
    request is never answered. *)
Theorem short_post_ends_the_loop :
  run boot [Accept 7 0 "alice default"; Recv 0 "post onlysubject" day0;
            Recv 0 "users" day0]
  = ({| server := alice_in_default; workers := [] |},
     [Send 7 "id 0 Current server groups: default";
      Send 7 "Error: Missing subject or message."])
  ∧ run boot [Accept 7 0 "alice default"; Recv 0 "users" day0]
  = ({| server := alice_in_default; workers := [(0%nat, alice_worker)] |},
     [Send 7 "id 0 Current server groups: default";
      Send 7 "Users in 'default': alice"]).
Proof. split; vm_compute; reflexivity. Qed.

(** ** The handshake reply *)

(** The list is cut to five names before its length is compared with five:
    the reply never carries the "..." mark. *)
Lemma example_groups_message_unmarked st text :
  example_groups_message st = Some text →
  text = " Current server groups: "
           +:+ Text.join ", " (take 5 (dict_keys (groups st))).
Proof.
  unfold example_groups_message. cbv zeta.
  case_bool_decide; [|done].
  case_bool_decide as Hlen; [|congruence].
  rewrite length_take in Hlen. lia.
Qed.

(** C6, at a failing input. Five clients connect, each naming a new group:
    with "default" the server then has six groups, and the reply to the
    fifth lists five names and no "...". *)
Theorem handshake_with_six_groups :
  let evs := [Accept 1 1 "u1 g1"; Accept 2 2 "u2 g2"; Accept 3 3 "u3 g3";
              Accept 4 4 "u4 g4"; Accept 5 5 "u5 g5"] in
  dict_keys (groups (server (run boot evs).1))
    = ["default"; "g1"; "g2"; "g3"; "g4"; "g5"]
  ∧ last (run boot evs).2
    = Some (Send 5 "id 4 Current server groups: default, g1, g2, g3, g4").
Proof. split; vm_compute; reflexivity. Qed.

(** ** The catch-up window *)

(** C1, at a failing input. alice posts message 0 to book-club; bob then
    joins book-club, when the board has one message (his join point would
    be 1, so that id 0 is within [1 - 2 <= id]), and is told
    "Message ID: 0" under "Previous messages:"; his read of message 0 is
    answered with the "too far in the past" error. *)
Theorem catch_up_read_refused :
  let before_join :=
    [Accept 10 100 "alice book-club";
     Recv 0 "grouppost book-club Welcome Hi all" day0;
     Accept 11 101 "bob default"] in
  (length <$> dict_get "book-club" (boards (server (run boot before_join).1)))
    = Some 1%nat
  ∧ (run (run boot before_join).1
       [Recv 1 "groupjoin book-club" day0;
        Recv 1 "groupmessage book-club 0" day0]).2
    = [Send 10 "New member bob has joined group 'book-club'.";
       Send 11 ("Added to group 'book-club'." +:+ nl
                  +:+ "Current Members: alice, bob" +:+ nl
                  +:+ "Previous messages:" +:+ nl
                  +:+ "Message ID: 0 + " +:+ nl);
       Send 11 too_far].
Proof. split; vm_compute; reflexivity. Qed.


(** ** Every state change is a write *)

Lemma writes_1 st st' : write st st' → writes st st'.
Proof. apply rtc_once. Qed.

Lemma ensure_boards_writes st gs :
  writes st
    (set_boards
       (foldl (λ b g, if negb (dict_mem g b) then dict_set g [] b else b)
          (boards st) gs) st).
Proof.
  revert st. induction gs as [|g gs IH]; intros st; simpl.
  - destruct st; apply rtc_refl.
  - destruct (dict_mem g (boards st)); simpl.
    + apply IH.
    + eapply rtc_l; [apply (write_new_board st g)|].
      apply (IH (set_boards (dict_set g [] (boards st)) st)).
Qed.

Lemma bind_inv {A B} (m : M A) (f : A → M B) st r st' out :
  (m ≫= f) st = (r, st', out) →
  (∃ e o, m st = (Raise e, st', o))
  ∨ (∃ a st1 o1 o2, m st = (Val a, st1, o1) ∧ f a st1 = (r, st', o2)
                    ∧ out = o1 ++ o2).
Proof.
  munfold. destruct (m st) as [[[a|e] st1] o1].
  - destruct (f a st1) as [[r2 st2] o2] eqn:Hf. intros [= <- <- <-].
    right. by exists a, st1, o1, o2.
  - intros [= <- <- <-]. left. by exists e, o1.
Qed.

Section Sound.
Context {A B : Type}.

Lemma sound_ret (a : A) : sound (mret a).
Proof. intros st r st' out [= <- <- <-]. apply rtc_refl. Qed.

Lemma sound_raise e : sound (@raise A e).
Proof. intros st r st' out [= <- <- <-]. apply rtc_refl. Qed.

Lemma sound_lift e (o : option A) : sound (lift e o).
Proof. destruct o; [apply sound_ret | apply sound_raise]. Qed.

Lemma sound_bind (m : M A) (f : A → M B) :
  sound m → (∀ a, sound (f a)) → sound (m ≫= f).
Proof.
  intros Hm Hf st r st' out
    [(e & o & H)|(a & st1 & o1 & o2 & H1 & H2 & _)]%bind_inv.
  - by eapply Hm.
  - etrans; [by eapply Hm | by eapply Hf].
Qed.

Lemma sound_try_except (m h : M A) :
  sound m → sound h → sound (try_except m h).
Proof.
  intros Hm Hh st r st' out. unfold try_except.
  destruct (m st) as [[[a|e] st1] o1] eqn:Hmst.
  - intros [= <- <- <-]. by eapply Hm.
  - destruct (h st1) as [[r2 st2] o2] eqn:Hhst. intros [= <- <- <-].
    etrans; [by eapply Hm | by eapply Hh].
Qed.
End Sound.

Lemma sound_get : sound get.
Proof. intros st r st' out [= <- <- <-]. apply rtc_refl. Qed.

Lemma sound_emit o : sound (emit o).
Proof. intros st r st' out [= <- <- <-]. apply rtc_refl. Qed.

Lemma sound_send sock text : sound (send sock text).
Proof. apply sound_emit. Qed.

Lemma sound_broadcast p text : sound (broadcast p text).
Proof. apply sound_bind; [apply sound_get | intros; apply sound_emit]. Qed.

Lemma sound_modify_clients f :
  sound (modify (λ st, set_connected_clients (f st) st)).
Proof. intros st r st' out [= <- <- <-]. apply writes_1, write_clients. Qed.

(** Read the writes off an explicit final state, the last one first. *)
Ltac chain_writes :=
  lazymatch goal with
  | |- rtc write ?x ?x => apply rtc_refl
  | |- rtc write _ (set_boards (foldl _ _ _) ?y) =>
      etrans; [|apply (ensure_boards_writes y)]; chain_writes
  | |- rtc write _ (set_boards (dict_set ?g [] _) ?y) =>
      eapply rtc_r; [|apply (write_new_board y g)]; chain_writes
  | |- rtc write _ (set_boards (dict_set ?g (dict_set _ ?m ?b) _)
                      (set_heap (_ ++ [deref _ ?a]) ?y)) =>
      eapply rtc_r; [|by apply (write_post y g a b m)]; chain_writes
  | |- rtc write _ (set_groups (dict_set ?g _ _)
                      (set_heap (_ ++ [?l]) ?y)) =>
      eapply rtc_r; [|by apply (write_new_group y g l)]; chain_writes
  | |- rtc write _ (set_heap (<[?a := ?l]> _) ?y) =>
      eapply rtc_r; [|eapply (write_members y _ a l); eassumption];
      chain_writes
  | |- rtc write _ (set_connected_clients ?cs ?y) =>
      eapply rtc_r; [|apply (write_clients y cs)]; chain_writes
  | |- rtc write _ (set_client_ids ?n ?y) =>
      eapply rtc_r; [|apply (write_ids y n)]; chain_writes
  end.

Lemma handle_join_sound client_id group : sound (handle_join client_id group).
Proof.
  intros st r st' out. unfold handle_join. munfold. intros H.
  repeat case_match; simplify_eq; chain_writes.
Qed.

Lemma handle_leave_sound client_id group :
  sound (handle_leave client_id group).
Proof.
  intros st r st' out. unfold handle_leave. munfold. intros H.
  repeat case_match; simplify_eq; chain_writes.
Qed.

Lemma handle_message_sound client_id group message_id :
  sound (handle_message client_id group message_id).
Proof.
  intros st r st' out. unfold handle_message. munfold. intros H.
  repeat case_match; simplify_eq; chain_writes.
Qed.

Lemma handle_post_sound today client_id group subject message :
  sound (handle_post today client_id group subject message).
Proof.
  intros st r st' out. unfold handle_post. munfold. intros H.
  repeat case_match; simplify_eq; chain_writes.
Qed.

Lemma add_clients_groups_sound client_id client_name client_name_id
    client_group sock :
  sound (add_clients_groups client_id client_name client_name_id
           client_group sock).
Proof.
  intros st r st' out. unfold add_clients_groups. munfold. intros H.
  repeat case_match; simplify_eq; chain_writes.
Qed.

Lemma open_connection_handshake_sound sock client_name_id client_info :
  sound (open_connection_handshake sock client_name_id client_info).
Proof.
  unfold open_connection_handshake. cbv zeta.
  repeat first
    [ apply add_clients_groups_sound | apply sound_broadcast
    | apply sound_lift | apply sound_get | apply sound_send
    | apply sound_ret | apply sound_bind; [|intros ?] ].
Qed.

Lemma open_connection_step_sound today w data :
  sound (open_connection_step today w data).
Proof.
  unfold open_connection_step, call_handle_post, call_handle_message.
  cbv zeta.
  repeat first
    [ apply handle_join_sound | apply handle_leave_sound
    | apply handle_post_sound | apply handle_message_sound
    | apply sound_lift | apply sound_get | apply sound_send
    | apply sound_emit | apply sound_ret | apply sound_raise
    | apply sound_modify_clients
    | apply sound_bind; [|intros ?]
    | case_decide | case_bool_decide | case_match ].
Qed.

Lemma step_writes sys e : writes (server sys) (server (step sys e).1).
Proof.
  destruct e as [sock nid info|cid data today]; simpl.
  - destruct (open_connection_handshake _ _ _ _) as [[[w|e] st] out] eqn:H;
      simpl; by eapply open_connection_handshake_sound.
  - destruct (dict_get cid (workers sys)) as [w|]; [|apply rtc_refl].
    destruct (open_connection_step _ _ _ _) as [[[[]|e] st] out] eqn:H;
      simpl; by eapply open_connection_step_sound.
Qed.

Lemma run_writes sys evs : writes (server sys) (server (run sys evs).1).
Proof.
  revert sys. induction evs as [|e evs IH]; intros sys; simpl.
  - apply rtc_refl.
  - pose proof (step_writes sys e) as H1.
    destruct (step sys e) as [sys1 o1]. specialize (IH sys1).
    destruct (run sys1 evs) as [sys2 o2]. simpl in *. by etrans.
Qed.

(** ** Message ids *)

Lemma gapless_board_fresh b :
  gapless_board b → dict_get (Z.of_nat (length b)) b = None.
Proof.
  intros Hb. apply dict_get_None_keys. rewrite Hb.
  intros (n & Hn & Hin)%list_elem_of_fmap.
  apply elem_of_seq in Hin. lia.
Qed.

Lemma gapless_board_post b m :
  gapless_board b →
  dict_set (Z.of_nat (length b)) m b = b ++ [(Z.of_nat (length b), m)]
  ∧ gapless_board (b ++ [(Z.of_nat (length b), m)]).
Proof.
  intros Hb. split.
  - by apply dict_set_keys_absent, gapless_board_fresh.
  - unfold gapless_board, dict_keys in *.
    rewrite fmap_app, length_app, Hb. simpl.
    rewrite Nat.add_1_r, seq_S, fmap_app. done.
Qed.

Lemma gapless_init : gapless init.
Proof.
  intros g b [= -> ->]%list_elem_of_singleton. reflexivity.
Qed.

Lemma write_gapless st st' : write st st' → gapless st → gapless st'.
Proof.
  intros Hw Hst.
  destruct Hw as [st n|st cs|st g a l Ha|st g l Hg|st g|st g a b m Ha Hb Hm];
    try exact Hst.
  - intros g' b' [[= -> ->]|Hin]%dict_set_elem_of; [reflexivity|].
    by eapply Hst.
  - intros g' b' [[= -> ->]|Hin]%dict_set_elem_of; [|by eapply Hst].
    apply dict_get_elem_of, Hst in Hb.
    destruct (gapless_board_post b m Hb) as [-> ?]. done.
Qed.

Lemma writes_gapless st st' : writes st st' → gapless st → gapless st'.
Proof. induction 1; eauto using write_gapless. Qed.



(** ** Membership snapshots *)

Lemma write_allocated st st' : write st st' → allocated st → allocated st'.
Proof.
  intros Hw Hst.
  destruct Hw as [st n|st cs|st g a l Ha|st g l Hg|st g|st g a b m Ha Hb Hm];
    try exact Hst; intros g' a'; simpl.
  - rewrite length_insert. apply Hst.
  - rewrite length_app. simpl.
    intros [[= -> ->]|Hin]%dict_set_elem_of; [lia|].
    apply Hst in Hin. lia.
  - rewrite length_app. simpl. intros Hin. apply Hst in Hin. lia.
Qed.

(** A write leaves a frozen list object frozen and as it is. *)
Lemma write_frozen st st' x :
  write st st' → allocated st → frozen st x →
  frozen st' x ∧ heap st' !! x = heap st !! x.
Proof.
  intros Hw Hst [Hx Hne].
  destruct Hw as [st n|st cs|st g a l Ha|st g l Hg|st g|st g a b m Ha Hb Hm];
    simpl; try (split; [by split|done]).
  - apply dict_get_elem_of in Ha. split; [split|]; simpl.
    + by rewrite length_insert.
    + done.
    + apply list_lookup_insert_ne. by eapply Hne.
  - split; [split|]; simpl.
    + rewrite length_app. lia.
    + intros g' a' [[= -> ->]|Hin]%dict_set_elem_of; [lia|by eapply Hne].
    + by apply lookup_app_l.
  - split; [split|]; simpl.
    + rewrite length_app. lia.
    + done.
    + by apply lookup_app_l.
Qed.

Lemma write_separated st st' : write st st' → separated st → separated st'.
Proof.
  intros Hw [Hal Hsep]. split; [by eapply write_allocated|].
  assert (∀ g b k m, (g, b) ∈ boards st → (k, m) ∈ b →
                     frozen st' (users_at_time_of_posting m)) as Hold.
  { intros g b k m Hg Hk. by eapply write_frozen, Hsep. }
  destruct Hw as [st n|st cs|st g a l Ha|st g l Hg|st g|st g a b m Ha Hb Hm];
    try exact Hold; simpl.
  - intros g' b' k' m' [[= -> ->]|Hin]%dict_set_elem_of Hk.
    + by apply elem_of_nil in Hk.
    + by eapply Hold.
  - intros g' b' k' m' [[= -> ->]|Hin]%dict_set_elem_of Hk; [|by eapply Hold].
    apply dict_get_elem_of in Hb.
    apply dict_set_elem_of in Hk as [[= -> ->]|Hk]; [|by eapply Hold].
    rewrite Hm. split; simpl.
    + rewrite length_app. simpl. lia.
    + intros g' a' Hin%Hal. lia.
Qed.

Lemma writes_separated st st' : writes st st' → separated st → separated st'.
Proof. induction 1; eauto using write_separated. Qed.

Lemma writes_frozen st st' x :
  writes st st' → allocated st → frozen st x →
  frozen st' x ∧ heap st' !! x = heap st !! x.
Proof.
  induction 1 as [st|st st1 st' Hw Hws IH]; intros Hal Hx; [done|].
  destruct (write_frozen _ _ _ Hw Hal Hx) as [Hx1 Heq].
  destruct (IH (write_allocated _ _ Hw Hal) Hx1) as [Hx' Heq'].
  split; [done | congruence].
Qed.

Lemma separated_init : separated init.
Proof.
  split.
  - intros g a [= -> ->]%list_elem_of_singleton. simpl. lia.
  - intros g b k m [= -> ->]%list_elem_of_singleton Hk.
    by apply elem_of_nil in Hk.
Qed.

(** C7. In a server whose snapshots are separated from the member lists (a
    fresh server is such, and every run keeps it so):
    - whatever happens later (connects, joins, leaves, posts, any request),
      the list stored as ["users_at_time_of_posting"] of every message
      already posted stays the list it was;
    - a post stores, as the snapshot of the new message, a list object that
      did not exist before (so neither the group's member list nor any
      other list), holding the members of the group at that moment. *)
Theorem snapshots_are_frozen_copies sys evs :
  separated (server sys) →
  let st := server sys in
  let st' := server (run sys evs).1 in
  separated st'
  ∧ (∀ g b k m, (g, b) ∈ boards st → (k, m) ∈ b →
       deref (heap st') (users_at_time_of_posting m)
       = deref (heap st) (users_at_time_of_posting m))
  ∧ (∀ today client_id group subject message c a b,
       dict_get client_id (connected_clients st) = Some c →
       dict_get group (groups st) = Some a →
       name c ∈ deref (heap st) a →
       dict_get group (boards st) = Some b →
       ∃ st1 out m,
         handle_post today client_id group subject message st
           = (Val tt, st1, out)
         ∧ dict_get group (boards st1) ≫= dict_get (Z.of_nat (length b))
           = Some m
         ∧ users_at_time_of_posting m = length (heap st)
         ∧ deref (heap st1) (users_at_time_of_posting m)
           = deref (heap st) a).
Proof.
  intros Hsep st st'. pose proof (run_writes sys evs) as Hrun.
  split; [by eapply writes_separated|]. split.
  - intros g b k m Hg Hk. destruct Hsep as [Hal Hsep].
    destruct (writes_frozen _ _ _ Hrun Hal (Hsep _ _ _ _ Hg Hk)) as [_ Heq].
    unfold deref. fold st st' in Heq. by rewrite Heq.
  - intros today client_id group subject message c a b Hc Ha Hin Hb.
    eexists _, _, _. split; [by apply handle_post_member|].
    simpl. rewrite dict_get_set_eq. simpl. rewrite dict_get_set_eq.
    split; [done|]. split; [done|]. simpl.
    unfold deref at 1. by rewrite lookup_app_r, Nat.sub_diag.
Qed.

Lemma snapshots_are_frozen_copies_witness :
  let sys := {| server := club_state; workers := [] |} in
  let evs := [Accept 12 102 "carol book-club"] in
  let st := server sys in
  let st' := server (run sys evs).1 in
  separated st'
  ∧ (∀ g b k m, (g, b) ∈ boards st → (k, m) ∈ b →
       deref (heap st') (users_at_time_of_posting m)
       = deref (heap st) (users_at_time_of_posting m))
  ∧ (∀ today client_id group subject message c a b,
       dict_get client_id (connected_clients st) = Some c →
       dict_get group (groups st) = Some a →
       name c ∈ deref (heap st) a →
       dict_get group (boards st) = Some b →
       ∃ st1 out m,
         handle_post today client_id group subject message st
           = (Val tt, st1, out)
         ∧ dict_get group (boards st1) ≫= dict_get (Z.of_nat (length b))
           = Some m
         ∧ users_at_time_of_posting m = length (heap st)
         ∧ deref (heap st1) (users_at_time_of_posting m)
           = deref (heap st) a).
Proof.
  apply (snapshots_are_frozen_copies
           {| server := club_state; workers := [] |}
           [Accept 12 102 "carol book-club"]).
  split.
  - intros g a Hin. simpl in Hin.
    repeat (apply elem_of_cons in Hin as [[= -> ->]|Hin]; [simpl; lia|]).
    by apply elem_of_nil in Hin.
  - intros g b k m Hg Hk. simpl in Hg.
    apply elem_of_cons in Hg as [[= -> ->]|Hg];
      [by apply elem_of_nil in Hk|].
    apply elem_of_cons in Hg as [[= -> ->]|Hg];
      [|by apply elem_of_nil in Hg].
    apply elem_of_cons in Hk as [[= -> ->]|Hk];
      [|by apply elem_of_nil in Hk].
    split; simpl; [lia|].
    intros g' a' Hin.
    repeat (apply elem_of_cons in Hin as [[= -> ->]|Hin]; [lia|]).
    by apply elem_of_nil in Hin.
Defined.

(** ** [int(str(z))] *)

Module TextFacts.
Import Text.

Lemma rstrip_no_space s : no_space s = true → rstrip s = s.
Proof.
  induction s as [|a s IH]; simpl; [done|].
  intros [Ha Hs]%andb_prop. rewrite (IH Hs).
  destruct s; [|done]. by destruct (is_space a).
Qed.

Lemma strip_no_space s : no_space s = true → strip s = s.
Proof.
  intros Hs. unfold strip.
  assert (lstrip s = s) as ->; [|by apply rstrip_no_space].
  destruct s as [|a s]; simpl in *; [done|].
  apply andb_prop in Hs as [Ha _]. by destruct (is_space a).
Qed.

Lemma digit_char d :
  (d < 10)%N →
  digit (pretty_N_char d) = Some d
  ∧ is_space (pretty_N_char d) = false
  ∧ pretty_N_char d ≠ "-"%char ∧ pretty_N_char d ≠ "+"%char.
Proof.
  intros Hd.
  assert (∃ n, d = N.of_nat n ∧ (n < 10)%nat) as (n & -> & Hn)
    by (exists (N.to_nat d); lia).
  do 10 (destruct n as [|n]; [by vm_compute|]). lia.
Qed.

(** The digits [str] writes for a positive number, read back *)
Lemma pretty_N_go_read x :
  (0 < x)%N →
  ∀ s,
    (∀ b, int_digits 0 b (pretty_N_go x s) = int_digits x true s)
    ∧ (no_space s = true → no_space (pretty_N_go x s) = true)
    ∧ ∃ d s', (d < 10)%N ∧ pretty_N_go x s = String (pretty_N_char d) s'.
Proof.
  induction (N.lt_wf_0 x) as [x _ IH]. intros Hx s.
  rewrite pretty_N_go_step by done.
  assert (x `mod` 10 < 10)%N as Hd by (by apply N.mod_lt).
  destruct (digit_char _ Hd) as (Hdig & Hsp & _).
  destruct (decide (x `div` 10 = 0)%N) as [Hq|Hq].
  - rewrite Hq, pretty_N_go_0. split; [|split].
    + intros b. simpl. rewrite Hdig. f_equal.
      pose proof (N.div_mod x 10). lia.
    + intros Hs. simpl. by rewrite Hsp, Hs.
    + by exists (x `mod` 10)%N, s.
  - destruct (IH (x `div` 10)%N) with
      (s := String (pretty_N_char (x `mod` 10)) s)
      as (Hread & Hns & Hhead).
    { apply N.div_lt; lia. }
    { by apply N.neq_0_lt_0. }
    split; [|split].
    + intros b. rewrite Hread. simpl. rewrite Hdig. f_equal.
      pose proof (N.div_mod x 10). lia.
    + intros Hs. apply Hns. simpl. by rewrite Hsp, Hs.
    + done.
Qed.

Lemma py_int_positive (p : positive) :
  no_space (pretty (N.pos p)) = true
  ∧ Z.of_N <$> int_digits 0 false (pretty (N.pos p)) = Some (Z.pos p)
  ∧ py_int (pretty (N.pos p)) = Some (Z.pos p).
Proof.
  unfold pretty, pretty_N. case_decide; [done|].
  destruct (pretty_N_go_read (N.pos p) ltac:(lia) "")
    as (Hread & Hns & d & s' & Hd & Hhead).
  specialize (Hns eq_refl).
  assert (Z.of_N <$> int_digits 0 false (pretty_N_go (N.pos p) "")
          = Some (Z.pos p)) as Hval by (by rewrite Hread).
  split; [done|]. split; [done|].
  unfold py_int. rewrite strip_no_space by done.
  rewrite Hhead in Hval |- *.
  destruct (digit_char d Hd) as (_ & _ & Hminus & Hplus).
  destruct (pretty_N_char d) as [[] [] [] [] [] [] [] []];
    try done; by (exfalso; (apply Hminus || apply Hplus)).
Qed.

(** A number written by [str] is read back by [int]. *)
Lemma py_int_py_str z : py_int (py_str z) = Some z.
Proof.
  destruct z as [|p|p].
  - by vm_compute.
  - change (py_str (Z.pos p)) with (pretty (N.pos p)).
    apply py_int_positive.
  - change (py_str (Z.neg p)) with (String "-" (pretty (N.pos p))).
    destruct (py_int_positive p) as (Hns & Hval & _).
    unfold py_int. rewrite strip_no_space by (simpl; exact Hns).
    cbv iota. by rewrite Hval.
Qed.

End TextFacts.

(** ** The round trip through the files *)

Lemma deref_new h l H : (h ++ [l]) `prefix_of` H → deref H (length h) = l.
Proof.
  intros [t ->]. unfold deref.
  rewrite <- app_assoc, lookup_app_r, Nat.sub_diag by lia. done.
Qed.

Lemma prefix_snoc_l {A} (h : list A) x H :
  (h ++ [x]) `prefix_of` H → h `prefix_of` H.
Proof. intros [t ->]. exists ([x] ++ t). by rewrite app_assoc. Qed.

Lemma NoDup_snoc_keys {K} (acc ks : list K) k :
  NoDup (acc ++ (k :: ks)) → (k ∉ acc) ∧ NoDup ((acc ++ [k]) ++ ks).
Proof.
  intros Hnd. split.
  - apply NoDup_app in Hnd as (_ & Hdis & _). intros Hin.
    apply (Hdis k Hin). left.
  - by rewrite <- app_assoc.
Qed.

Lemma load_groups_spec gj : ∀ d0 h0,
  NoDup (dict_keys d0 ++ gj.*1) →
  ∃ d h', load_groups gj d0 h0 = (d0 ++ d, h')
          ∧ h0 `prefix_of` h'
          ∧ ∀ H, h' `prefix_of` H → group_contents H d = gj.
Proof.
  unfold load_groups.
  induction gj as [|[g l] gj IH]; intros d0 h0 Hnd; simpl.
  - exists [], h0. by rewrite app_nil_r.
  - apply NoDup_snoc_keys in Hnd as [Hg Hnd].
    rewrite dict_set_keys_absent by (by apply dict_get_None_keys).
    destruct (IH (d0 ++ [(g, length h0)]) (h0 ++ [l])) as (d & h' & -> & Hpre & Hd).
    { unfold dict_keys in *. by rewrite fmap_app. }
    exists ((g, length h0) :: d), h'. split; [by rewrite <- app_assoc|].
    split; [by eapply prefix_snoc_l|].
    intros H HH. unfold group_contents in *.
    rewrite fmap_cons, (Hd H HH). simpl. f_equal. f_equal.
    apply deref_new. by etrans.
Qed.

Lemma dump_load_message H mj a :
  deref H a = j_users_at_time_of_posting mj →
  dump_message H (load_message mj a) = mj.
Proof. intros Ha. destruct mj. unfold dump_message. simpl in *. by rewrite Ha. Qed.

Lemma load_board_spec msgs : ∀ b0 h0,
  NoDup (dict_keys b0 ++ msgs.*1) →
  ∃ b h', load_board msgs b0 h0 = (b0 ++ b, h')
          ∧ h0 `prefix_of` h'
          ∧ ∀ H, h' `prefix_of` H → board_contents H b = msgs.
Proof.
  unfold load_board.
  induction msgs as [|[k mj] msgs IH]; intros b0 h0 Hnd; simpl.
  - exists [], h0. by rewrite app_nil_r.
  - apply NoDup_snoc_keys in Hnd as [Hk Hnd].
    rewrite dict_set_keys_absent by (by apply dict_get_None_keys).
    destruct (IH (b0 ++ [(k, load_message mj (length h0))])
                (h0 ++ [j_users_at_time_of_posting mj]))
      as (b & h' & -> & Hpre & Hb).
    { unfold dict_keys in *. by rewrite fmap_app. }
    exists ((k, load_message mj (length h0)) :: b), h'.
    split; [by rewrite <- app_assoc|].
    split; [by eapply prefix_snoc_l|].
    intros H HH. unfold board_contents in *.
    rewrite fmap_cons, (Hb H HH). simpl. f_equal. f_equal.
    apply dump_load_message, deref_new. by etrans.
Qed.

Lemma load_boards_spec bj : ∀ d0 h0,
  NoDup (dict_keys d0 ++ bj.*1) →
  (∀ g msgs, (g, msgs) ∈ bj → NoDup (msgs.*1)) →
  ∃ d h', load_boards bj d0 h0 = (d0 ++ d, h')
          ∧ h0 `prefix_of` h'
          ∧ ∀ H, h' `prefix_of` H →
                 (λ gb, (gb.1, board_contents H gb.2)) <$> d = bj.
Proof.
  unfold load_boards.
  induction bj as [|[g msgs] bj IH]; intros d0 h0 Hnd Hin; simpl.
  - exists [], h0. by rewrite app_nil_r.
  - apply NoDup_snoc_keys in Hnd as [Hg Hnd].
    destruct (load_board_spec msgs [] h0) as (b & h1 & Hb & Hpre1 & Hview).
    { simpl. eapply Hin. left. }
    rewrite Hb. simpl.
    rewrite dict_set_keys_absent by (by apply dict_get_None_keys).
    destruct (IH (d0 ++ [(g, b)]) h1) as (d & h' & -> & Hpre & Hd).
    { unfold dict_keys in *. by rewrite fmap_app. }
    { intros g' msgs' Hg'. eapply Hin. by right. }
    exists ((g, b) :: d), h'. split; [by rewrite <- app_assoc|].
    split; [by etrans|].
    intros H HH. rewrite fmap_cons, (Hd H HH). simpl. f_equal. f_equal.
    apply Hview. by etrans.
Qed.

(** Turning the keys back: a board loaded from the dump of [orig] gets the
    keys of [orig]. *)
Lemma int_keys_spec H h0 raw : ∀ (orig acc : list (Z * Message)),
  board_contents H raw
    = (λ km, (Text.py_str km.1, km.2)) <$> board_contents h0 orig →
  NoDup (dict_keys acc ++ dict_keys orig) →
  ∃ b, foldl (λ acc kv,
                d ← acc; k ← Text.py_int kv.1; Some (dict_set k kv.2 d))
         (Some acc) raw = Some (acc ++ b)
       ∧ board_contents H b = board_contents h0 orig.
Proof.
  induction raw as [|[s m] raw IH]; intros [|[k m0] orig] acc Heq Hnd;
    simplify_eq/=.
  - exists []. by rewrite app_nil_r.
  - apply NoDup_snoc_keys in Hnd as [Hk Hnd].
    rewrite TextFacts.py_int_py_str. simpl.
    rewrite dict_set_keys_absent by (by apply dict_get_None_keys).
    destruct (IH orig (acc ++ [(k, m)])) as (b & -> & Hb); [done| |].
    { unfold dict_keys in *. by rewrite fmap_app. }
    exists ((k, m) :: b). split; [by rewrite <- app_assoc|].
    unfold board_contents in *. rewrite fmap_cons, Hb. simpl.
    do 2 f_equal. unfold dump_message. congruence.
Qed.

Lemma reload_boards H h0 raw : ∀ bs : list (string * list (Z * Message)),
  (λ gb, (gb.1, board_contents H gb.2)) <$> raw
    = (λ gb, (gb.1, (λ km, (Text.py_str km.1, km.2))
                      <$> board_contents h0 gb.2)) <$> bs →
  (∀ g b, (g, b) ∈ bs → NoDup (dict_keys b)) →
  ∃ bs', mapM (λ gb, b ← int_keys gb.2; Some (gb.1, b)) raw = Some bs'
         ∧ (λ gb, (gb.1, board_contents H gb.2)) <$> bs'
           = (λ gb, (gb.1, board_contents h0 gb.2)) <$> bs.
Proof.
  induction raw as [|[g0 b0] raw IH]; intros [|[g b] bs] Heq Hnd;
    simplify_eq/=.
  - by exists [].
  - destruct (int_keys_spec H h0 b0 b []) as (b' & Hb' & Hview); [done| |].
    { simpl. eapply Hnd. left. }
    destruct (IH bs) as (bs' & Hbs' & Hviews); [done| |].
    { intros g' b1 Hin. eapply Hnd. by right. }
    exists ((g, b') :: bs'). split.
    + assert (int_keys b0 = Some b') as -> by exact Hb'.
      simpl.
      match goal with
      | |- ?m ≫= _ = _ => replace m with (Some bs') by (symmetry; exact Hbs')
      end. done.
    + rewrite !fmap_cons. simpl. by rewrite Hview, Hviews.
Qed.

Lemma keys_of_contents {A B C} (f : A * B → C) (l : list (A * B)) :
  ((λ x, (x.1, f x)) <$> l).*1 = l.*1.
Proof.
  induction l as [|x l IH]; [done|]. rewrite !fmap_cons. simpl. by f_equal.
Qed.

Lemma keys_of_dumped_board h (b : list (Z * Message)) :
  ((λ km : Z * MessageJson, (Text.py_str km.1, km.2))
     <$> board_contents h b).*1 = Text.py_str <$> dict_keys b.
Proof.
  unfold board_contents, dict_keys.
  induction b as [|x b IH]; [done|]. rewrite !fmap_cons. simpl. by f_equal.
Qed.



(** ** The invariants hold for every state the server can be in *)

Lemma dict_set_keys {K V} `{!EqDecision K} (k : K) (v : V) d :
  dict_keys (dict_set k v d)
  = if decide (k ∈ dict_keys d) then dict_keys d else dict_keys d ++ [k].
Proof.
  unfold dict_keys. induction d as [|[k' v'] d IH].
  - destruct (decide (k ∈ _)) as [Hin|_]; [by apply elem_of_nil in Hin|done].
  - cbn [dict_set]. destruct (decide (k = k')) as [->|Hne].
    + rewrite !fmap_cons. cbn [fst]. by rewrite decide_True by left.
    + rewrite !fmap_cons, IH. cbn [fst].
      destruct (decide (k ∈ d.*1)) as [Hin|Hin].
      * by rewrite decide_True by (by right).
      * rewrite decide_False; [done|].
        intros [?|?]%elem_of_cons; done.
Qed.

Lemma dict_set_NoDup {K V} `{!EqDecision K} (k : K) (v : V) d :
  NoDup (dict_keys d) → NoDup (dict_keys (dict_set k v d)).
Proof.
  intros Hd. rewrite dict_set_keys. case_decide as Hin; [done|].
  apply NoDup_app. split; [done|]. split; [|apply NoDup_singleton].
  intros x Hx ->%list_elem_of_singleton. done.
Qed.

Lemma well_keyed_init : well_keyed init.
Proof.
  split; [apply NoDup_singleton|]. split; [apply NoDup_singleton|].
  intros g b [= -> ->]%list_elem_of_singleton. constructor.
Qed.

Lemma write_well_keyed st st' : write st st' → well_keyed st → well_keyed st'.
Proof.
  intros Hw (Hg & Hb & Hbs).
  destruct Hw as [st n|st cs|st g a l Ha|st g l Hg'|st g|st g a b m Ha Hb' Hm];
    try (by split_and!); split_and!; simpl; try done.
  - by apply dict_set_NoDup.
  - by apply dict_set_NoDup.
  - intros g' b' [[= -> ->]|Hin]%dict_set_elem_of; [constructor|].
    by eapply Hbs.
  - by apply dict_set_NoDup.
  - intros g' b' [[= -> ->]|Hin]%dict_set_elem_of; [|by eapply Hbs].
    apply dict_set_NoDup. eapply Hbs. by apply dict_get_elem_of.
Qed.

Lemma writes_well_keyed st st' : writes st st' → well_keyed st → well_keyed st'.
Proof. induction 1; eauto using write_well_keyed. Qed.

(** The addresses [json.load] hands out are new ones. *)
Lemma load_groups_bounds gj : ∀ d0 h0 g a,
  (length h0 ≤ length (load_groups gj d0 h0).2)%nat
  ∧ ((g, a) ∈ (load_groups gj d0 h0).1 →
     (g, a) ∈ d0
     ∨ (length h0 ≤ a < length (load_groups gj d0 h0).2)%nat).
Proof.
  unfold load_groups.
  induction gj as [|[g' l] gj IH]; intros d0 h0 g a; simpl.
  - split; [lia|by left].
  - destruct (IH (dict_set g' (length h0) d0) (h0 ++ [l]) g a) as [Hlen Hin].
    rewrite length_app in Hlen. simpl in Hlen. split; [lia|].
    intros [[[= -> ->]|Hold]%dict_set_elem_of|Hnew]%Hin.
    + right. lia.
    + by left.
    + right. rewrite length_app in Hnew. simpl in Hnew. lia.
Qed.

Lemma load_board_bounds msgs : ∀ b0 h0 k m,
  (length h0 ≤ length (load_board msgs b0 h0).2)%nat
  ∧ ((k, m) ∈ (load_board msgs b0 h0).1 →
     (k, m) ∈ b0
     ∨ (length h0 ≤ users_at_time_of_posting m
        < length (load_board msgs b0 h0).2)%nat).
Proof.
  unfold load_board.
  induction msgs as [|[k' mj] msgs IH]; intros b0 h0 k m; simpl.
  - split; [lia|by left].
  - destruct (IH (dict_set k' (load_message mj (length h0)) b0)
                (h0 ++ [j_users_at_time_of_posting mj]) k m) as [Hlen Hin].
    rewrite length_app in Hlen. simpl in Hlen. split; [lia|].
    intros [[[= -> ->]|Hold]%dict_set_elem_of|Hnew]%Hin.
    + right. simpl. lia.
    + by left.
    + right. rewrite length_app in Hnew. simpl in Hnew. lia.
Qed.

Lemma load_boards_bounds bj : ∀ d0 h0 g b,
  (length h0 ≤ length (load_boards bj d0 h0).2)%nat
  ∧ ((g, b) ∈ (load_boards bj d0 h0).1 →
     (g, b) ∈ d0
     ∨ ∀ k m, (k, m) ∈ b →
         (length h0 ≤ users_at_time_of_posting m
          < length (load_boards bj d0 h0).2)%nat).
Proof.
  unfold load_boards.
  induction bj as [|[g' msgs] bj IH]; intros d0 h0 g b; simpl.
  - split; [lia|by left].
  - destruct (IH (dict_set g' (load_board msgs [] h0).1 d0)
                (load_board msgs [] h0).2 g b) as [Hlen Hin].
    pose proof (λ k m, load_board_bounds msgs [] h0 k m) as Hb.
    split; [destruct (Hb "" (load_message
              {| j_sender := ""; j_date := ""; j_subject := "";
                 j_message := ""; j_users_at_time_of_posting := [] |} 0))
              as [? _]; lia|].
    intros [[[= -> ->]|Hold]%dict_set_elem_of|Hnew]%Hin.
    + right. intros k m Hkm. destruct (Hb k m) as [_ Hk].
      destruct (Hk Hkm) as [[]%elem_of_nil|?]. lia.
    + by left.
    + right. intros k m Hkm. specialize (Hnew k m Hkm).
      destruct (Hb k m) as [? _]. lia.
Qed.

Lemma int_keys_values (raw : list (string * Message)) :
  ∀ (acc : option (list (Z * Message))) b k m,
  foldl (λ acc kv,
           d ← acc; k ← Text.py_int kv.1; Some (dict_set k kv.2 d))
    acc raw = Some b →
  (k, m) ∈ b →
  (∃ d, acc = Some d ∧ (k, m) ∈ d) ∨ ∃ s, (s, m) ∈ raw.
Proof.
  induction raw as [|[s m'] raw IH]; intros acc b k m; simpl.
  - intros -> Hin. left. by exists b.
  - intros Hfold Hin.
    destruct (IH _ _ _ _ Hfold Hin) as [(d & Hd & Hkm)|[s' Hs']].
    + destruct acc as [d0|]; [|done]. simpl in Hd.
      destruct (Text.py_int s) as [z|]; [|done]. simplify_eq/=.
      apply dict_set_elem_of in Hkm as [[= -> ->]|Hkm].
      * right. exists s. left.
      * left. by exists d0.
    + right. exists s'. by right.
Qed.

(** Whatever the files hold, a restart that goes through gives a state
    whose snapshots are separated from the member lists. *)
Lemma server_startup_separated groups_file boards_file st' :
  server_startup groups_file boards_file = Some st' → separated st'.
Proof.
  unfold server_startup. cbv zeta.
  set (gh := match groups_file with
             | Some gj => load_groups gj [] (heap init)
             | None => (groups init, heap init)
             end).
  assert ((1 ≤ length gh.2)%nat
          ∧ ∀ g a, (g, a) ∈ gh.1 → (a < length gh.2)%nat) as [Hlen Hgh].
  { subst gh. destruct groups_file as [gj|]; simpl.
    - split; [apply (load_groups_bounds gj [] [[]] "" 0%nat)|].
      intros g a Hin.
      destruct (load_groups_bounds gj [] [[]] g a) as [_ H].
      destruct (H Hin) as [[]%elem_of_nil|?]. lia.
    - split; [done|]. intros g a [= -> ->]%list_elem_of_singleton. lia. }
  destruct boards_file as [bj|]; simpl.
  - destruct (mapM _ _) as [bs|] eqn:Hbs; [|done]. intros [= <-].
    apply mapM_Some_1 in Hbs.
    split; simpl.
    + intros g a Hin%Hgh.
      eapply Nat.lt_le_trans; [exact Hin|].
      apply (load_boards_bounds bj [] gh.2 "" []).
    + intros g b k m Hg Hk.
      apply list_elem_of_lookup in Hg as [i Hi].
      destruct (Forall2_lookup_r _ _ _ _ _ Hbs Hi) as ([g0 raw] & Hraw & Hf).
      simpl in Hf. destruct (int_keys raw) as [b'|] eqn:Hint; [|done].
      simplify_eq/=.
      destruct (int_keys_values _ _ _ _ _ Hint Hk)
        as [(d & [= <-] & []%elem_of_nil)|[s Hs]].
      apply list_elem_of_lookup_2 in Hraw.
      destruct (load_boards_bounds bj [] gh.2 g raw) as [_ Hb].
      destruct (Hb Hraw) as [[]%elem_of_nil|Hnew].
      specialize (Hnew s m Hs). split; [exact (proj2 Hnew)|].
      intros g' a' Hin%Hgh. cbn [groups] in *. lia.
  - intros [= <-]. split; simpl.
    + done.
    + intros g b k m [= -> ->]%list_elem_of_singleton Hk.
      by apply elem_of_nil in Hk.
Qed.

(** A restart from the files of a server with gapless boards gives gapless
    boards. *)
Lemma restart_gapless st st' :
  gapless st →
  (λ gb, (gb.1, board_contents (heap st') gb.2)) <$> boards st'
    = (λ gb, (gb.1, board_contents (heap st) gb.2)) <$> boards st →
  gapless st'.
Proof.
  intros Hst Heq g b' Hin.
  assert ((g, board_contents (heap st') b')
          ∈ (λ gb, (gb.1, board_contents (heap st) gb.2)) <$> boards st)
    as ([g0 b] & [= -> Hb] & Hin0)%list_elem_of_fmap.
  { rewrite <- Heq. by apply (list_elem_of_fmap_2' _ _ (g, b')). }
  simpl in Hb. specialize (Hst _ _ Hin0).
  unfold gapless_board, dict_keys, board_contents in *.
  apply (f_equal (fmap fst)) in Hb as Hkeys.
  rewrite !keys_of_contents in Hkeys.
  apply (f_equal length) in Hb. rewrite !length_fmap in Hb.
  by rewrite Hkeys, Hb.
Qed.

(** Every state a fresh server reaches has gapless boards, separated
    snapshots and dictionaries without repeated keys. *)
Lemma run_boot_invariants evs :
  let st := server (run boot evs).1 in
  gapless st ∧ separated st ∧ well_keyed st.
Proof.
  pose proof (run_writes boot evs) as Hrun. split_and!.
  - eapply writes_gapless; [exact Hrun|apply gapless_init].
  - eapply writes_separated; [exact Hrun|apply separated_init].
  - eapply writes_well_keyed; [exact Hrun|apply well_keyed_init].
Qed.

(** * Further properties of the code *)

(** ** Splitting and joining text *)

Lemma str_app_cons a s t : String a s +:+ t = String a (s +:+ t).
Proof. reflexivity. Qed.

Lemma str_app_nil_r s : s +:+ "" = s.
Proof. induction s as [|a s IH]; [done|]. by rewrite str_app_cons, IH. Qed.

Lemma str_app_assoc s1 s2 s3 : (s1 +:+ s2) +:+ s3 = s1 +:+ s2 +:+ s3.
Proof.
  induction s1 as [|a s1 IH]; [done|]. by rewrite !str_app_cons, IH.
Qed.

Lemma split_not_nil c s : Text.split c s ≠ [].
Proof.
  destruct s as [|a s]; simpl; [done|].
  case_decide; [done|]. by destruct (Text.split c s).
Qed.

Lemma join_cons_char c a w ws :
  Text.join (String c "") (String a w :: ws)
  = String a (Text.join (String c "") (w :: ws)).
Proof. by destruct ws. Qed.

(** Splitting a text at a character and joining the fields with that
    character gives the text back. *)
Lemma join_split c s : Text.join (String c "") (Text.split c s) = s.
Proof.
  induction s as [|a s IH]; [done|]. simpl.
  destruct (decide (a = c)) as [->|Hne].
  - pose proof (split_not_nil c s) as Hnil.
    destruct (Text.split c s) as [|w ws]; [done|].
    change (Text.join (String c "") ("" :: w :: ws))
      with (String c (Text.join (String c "") (w :: ws))).
    by rewrite IH.
  - pose proof (split_not_nil c s) as Hnil.
    destruct (Text.split c s) as [|w ws]; [done|].
    by rewrite join_cons_char, IH.
Qed.

(** The loop [for param in u_parameters: command_str += " %s" % param] *)
Lemma frame_of_fields verb params :
  foldl (λ command_str param, command_str +:+ " " +:+ param) verb params
  = Text.join " " (verb :: params).
Proof.
  revert verb. induction params as [|p ps IH]; intros verb; [done|].
  simpl foldl. rewrite IH.
  destruct ps as [|q r]; simpl; [done|]. by rewrite !str_app_assoc.
Qed.

Lemma split_no_char c w : no_char c w = true → Text.split c w = [w].
Proof.
  induction w as [|a w IH]; simpl; [done|].
  intros [Ha Hw]%andb_prop. apply negb_true_iff, bool_decide_eq_false in Ha.
  rewrite decide_False by done. by rewrite IH.
Qed.

(** The first field of a text ends at the first separator. *)
Lemma split_field c w rest :
  no_char c w = true →
  Text.split c (w +:+ String c rest) = w :: Text.split c rest.
Proof.
  induction w as [|a w IH]; intros Hw.
  - change ("" +:+ String c rest) with (String c rest).
    cbn [Text.split]. by rewrite decide_True.
  - cbn [no_char] in Hw. apply andb_prop in Hw as [Ha Hw].
    apply negb_true_iff, bool_decide_eq_false in Ha.
    rewrite str_app_cons. cbn [Text.split]. rewrite decide_False by done.
    by rewrite IH.
Qed.

Lemma no_space_no_char s : Text.no_space s = true → no_char " " s = true.
Proof.
  induction s as [|a s IH]; simpl; [done|].
  intros [Ha Hs]%andb_prop. rewrite IH by done.
  destruct (decide (a = " "%char)) as [->|Hne]; [done|].
  by rewrite bool_decide_eq_false_2.
Qed.

Lemma pretty_nat_no_space (n : nat) : no_char " " (pretty n) = true.
Proof.
  unfold pretty, pretty_nat. destruct (N.of_nat n) as [|p]; [done|].
  apply no_space_no_char, TextFacts.py_int_positive.
Qed.

Lemma py_int_pretty_nat (n : nat) : Text.py_int (pretty n) = Some (Z.of_nat n).
Proof.
  unfold pretty, pretty_nat. rewrite <- (nat_N_Z n).
  destruct (N.of_nat n) as [|p]; [done|]. apply TextFacts.py_int_positive.
Qed.

Lemma replace_spaces_no_space s : no_char " " (replace_spaces s) = true.
Proof.
  induction s as [|a s IH]; simpl; [done|]. rewrite IH.
  destruct (decide (a = " "%char)) as [->|Hne]; [done|].
  by rewrite bool_decide_eq_false_2.
Qed.

(** ** The client's terminal loop *)

(** X1. A connected client sends a line that starts with the prefix and whose
    verb is not one of the three local ones to the server as typed, less
    the prefix: every space of the line is kept, so the server splits it
    into the verb and the parameters the user typed. *)
Theorem client_sends_the_line username group self_id rest :
  0 ≤ self_id →
  default "" (head (Text.split " " rest)) ∉ ["help"; "connect"; "exit"] →
  client_terminal_step username group self_id (String "%" rest) = SendFrame rest.
Proof.
  intros Hself Hverb. unfold client_terminal_step. cbv zeta.
  cbn [Text.split]. rewrite decide_False by done.
  pose proof (join_split " " rest) as Hjoin.
  destruct (Text.split " " rest) as [|w ws] eqn:Hsplit;
    [by apply split_not_nil in Hsplit|].
  cbn [head tail default from_option id drop_first String.prefix negb].
  destruct (ascii_dec "%" "%") as [_|Hne]; [|done]. cbn [negb].
  assert ((self_id <? 0) = false) as -> by lia. cbn [andb].
  assert ((-1 <? self_id) = true) as Hlt by lia.
  simpl in Hverb.
  rewrite !not_elem_of_cons in Hverb. destruct Hverb as (? & ? & ? & _).
  assert (String.prefix "" w = true) as -> by (by destruct w).
  cbn [negb]. rewrite !decide_False by done. rewrite Hlt.
  by rewrite frame_of_fields, Hjoin.
Qed.

Lemma client_sends_the_line_witness :
  client_terminal_step "alice" "default" 0 "%post Hello  to all"
  = SendFrame "post Hello  to all".
Proof.
  apply (client_sends_the_line "alice" "default" 0 "post Hello  to all").
  - lia.
  - vm_compute. intros H.
    repeat (apply elem_of_cons in H as [H|H]; [discriminate H|]).
    by apply elem_of_nil in H.
Defined.

(** X2. Before the client is connected ([self.id] negative) no line of input
    makes it send a frame or start a disconnect: it prints, connects,
    shuts down, or fails in [int(port)]. *)
Theorem client_silent_until_connected username group self_id u_input :
  self_id < 0 →
  match client_terminal_step username group self_id u_input with
  | SendFrame _ | Disconnect => False
  | _ => True
  end.
Proof.
  intros Hself. unfold client_terminal_step. cbv zeta.
  assert ((self_id <? 0) = true) as -> by lia.
  assert ((-1 <? self_id) = false) as -> by lia.
  repeat first [case_decide | case_bool_decide | case_match]; try done;
    simplify_eq/=.
  all: match goal with
       | H : drop_first _ ∉ _ |- _ => exfalso; apply H
       end.
  all: repeat match goal with H : drop_first _ = _ |- _ => rewrite H end.
  all: repeat first [by left | right].
Qed.

Lemma client_silent_until_connected_witness :
  match client_terminal_step "alice" "default" (-1) "%post Hello all" with
  | SendFrame _ | Disconnect => False
  | _ => True
  end.
Proof.
  apply (client_silent_until_connected "alice" "default" (-1)
           "%post Hello all").
  lia.
Defined.

(** ** Requests of a caller who is not in the group *)

Lemma bind_get {A} (f : Server → M A) st : (get ≫= f) st = f st st.
Proof. munfold. by destruct (f st st) as [[r st'] o]. Qed.






(** ** Requests the loop does not know, or cannot place *)

(** X4. A frame whose first word is none of the thirteen verbs (they are
    matched exactly, case and all) is answered with "Invalid command.";
    the state is unchanged and the loop goes on. *)
Theorem unknown_verb_is_invalid today w data st :
  data ≠ "" →
  default "" (head (Text.split " " data)) ∉ verbs →
  open_connection_step today w data st =
    (Val Continue, st, [Send (w_client_socket w) "Invalid command."]).
Proof.
  intros Hdata Hverb. unfold open_connection_step. cbv zeta.
  rewrite decide_False by done.
  unfold verbs in Hverb. rewrite !not_elem_of_cons in Hverb.
  destruct Hverb as (?&?&?&?&?&?&?&?&?&?&?&?&?&_).
  by rewrite !decide_False by done.
Qed.

Lemma unknown_verb_is_invalid_witness :
  open_connection_step day0 alice_worker "Help me" alice_in_default =
    (Val Continue, alice_in_default, [Send 7%nat "Invalid command."]).
Proof.
  apply (unknown_verb_is_invalid day0 alice_worker "Help me" alice_in_default).
  - discriminate.
  - vm_compute. intros H.
    repeat (apply elem_of_cons in H as [H|H]; [discriminate H|]).
    by apply elem_of_nil in H.
Defined.



(** ** Requests that end the thread without an answer *)

(** X6. A read with a word after the id ([message <id> <word> ...],
    [groupmessage <group> <id> <word> ...]) passes more arguments than
    [handle_message] takes: the call raises [TypeError].  Nothing is sent,
    the state is unchanged and the thread of the connection is over; the
    client stays registered. *)
Theorem extra_words_end_the_thread sys client_id w data today :
  dict_get client_id (workers sys) = Some w →
  ((∃ message_id word words,
      Text.split " " data = "message" :: message_id :: word :: words)
   ∨ ∃ group message_id word words,
       Text.split " " data
       = "groupmessage" :: group :: message_id :: word :: words) →
  open_connection_step today w data (server sys)
  = (Raise TypeError, server sys, [])
  ∧ step sys (Recv client_id data today)
    = ({| server := server sys; workers := dict_pop client_id (workers sys) |},
       []).
Proof.
  intros Hw Hdata.
  assert (open_connection_step today w data (server sys)
          = (Raise TypeError, server sys, [])) as Hstep.
  { unfold open_connection_step. cbv zeta.
    destruct Hdata as [(mid & word & words & Hsplit)
                      |(g & mid & word & words & Hsplit)];
      (destruct (decide (data = "")) as [->|_]; [discriminate Hsplit|]);
      rewrite Hsplit; simpl; verb; done. }
  split; [done|]. simpl. by rewrite Hw, Hstep.
Qed.

Lemma extra_words_end_the_thread_witness :
  let sys := {| server := alice_in_default;
                workers := [(0%nat, alice_worker)] |} in
  open_connection_step day0 alice_worker "message 0 please" (server sys)
  = (Raise TypeError, server sys, [])
  ∧ step sys (Recv 0 "message 0 please" day0)
    = ({| server := server sys; workers := dict_pop 0%nat (workers sys) |},
       []).
Proof.
  apply (extra_words_end_the_thread
           {| server := alice_in_default; workers := [(0%nat, alice_worker)] |}
           0%nat alice_worker "message 0 please" day0).
  - reflexivity.
  - left. by exists "0", "please", [].
Defined.

(** X7. A post or a read addressed to a group that does not exist
    ([grouppost <group> <subject> <text>], [groupmessage <group> <id>])
    raises [KeyError] at [self.groups[group]]: no error text is sent, the
    state is unchanged and the thread of the connection is over. *)
Theorem unknown_group_ends_the_thread sys client_id w data today group :
  dict_get client_id (workers sys) = Some w →
  ((∃ subject word words,
      Text.split " " data = "grouppost" :: group :: subject :: word :: words)
   ∨ ∃ message_id, Text.split " " data = ["groupmessage"; group; message_id]) →
  dict_get group (groups (server sys)) = None →
  open_connection_step today w data (server sys)
  = (Raise KeyError, server sys, [])
  ∧ step sys (Recv client_id data today)
    = ({| server := server sys; workers := dict_pop client_id (workers sys) |},
       []).
Proof.
  intros Hw Hdata Hg.
  assert (open_connection_step today w data (server sys)
          = (Raise KeyError, server sys, [])) as Hstep.
  { unfold open_connection_step. cbv zeta.
    destruct Hdata as [(subject & word & words & Hsplit)|(mid & Hsplit)];
      (destruct (decide (data = "")) as [->|_]; [discriminate Hsplit|]);
      rewrite Hsplit; simpl; verb;
      unfold call_handle_post, call_handle_message, handle_post,
        handle_message; munfold;
      (destruct (dict_get (w_client_id w) (connected_clients (server sys)));
       simpl; [by rewrite Hg|done]). }
  split; [done|]. simpl. by rewrite Hw, Hstep.
Qed.

Lemma unknown_group_ends_the_thread_witness :
  let sys := {| server := alice_in_default;
                workers := [(0%nat, alice_worker)] |} in
  open_connection_step day0 alice_worker "groupmessage chess 0" (server sys)
  = (Raise KeyError, server sys, [])
  ∧ step sys (Recv 0 "groupmessage chess 0" day0)
    = ({| server := server sys; workers := dict_pop 0%nat (workers sys) |},
       []).
Proof.
  apply (unknown_group_ends_the_thread
           {| server := alice_in_default; workers := [(0%nat, alice_worker)] |}
           0%nat alice_worker "groupmessage chess 0" day0 "chess").
  - reflexivity.
  - right. by exists "0".
  - reflexivity.
Defined.

(** ** Leaving and joining *)

Lemma list_remove_elem_of x y l : y ∈ list_remove x l → y ∈ l.
Proof.
  induction l as [|z l IH]; simpl; [done|].
  case_decide; [by right|]. intros [->|?]%elem_of_cons; [left|right; auto].
Qed.

Lemma list_remove_other x y l : y ≠ x → y ∈ l → y ∈ list_remove x l.
Proof.
  intros Hne. induction l as [|z l IH]; simpl; [done|].
  case_decide; subst; intros [->|?]%elem_of_cons; try done.
  - left.
  - right. auto.
Qed.

Lemma list_remove_NoDup x l :
  NoDup l → (x ∉ list_remove x l) ∧ NoDup (list_remove x l).
Proof.
  induction 1 as [|z l Hz Hl IH]; simpl; [split; [apply not_elem_of_nil|constructor]|].
  case_decide; subst; [done|]. destruct IH as [IH1 IH2]. split.
  - intros [->|?]%elem_of_cons; done.
  - constructor; [|done]. intros Hin. by apply list_remove_elem_of in Hin.
Qed.

Lemma list_remove_snoc x l : x ∉ l → list_remove x (l ++ [x]) = l.
Proof.
  induction l as [|z l IH]; simpl; intros Hx.
  - by rewrite decide_True.
  - apply not_elem_of_cons in Hx as [Hne Hx].
    rewrite decide_False by done. by rewrite IH.
Qed.

Lemma deref_store h a l : (a < length h)%nat → deref (<[a := l]> h) a = l.
Proof. intros Ha. unfold deref. by rewrite list_lookup_insert_eq. Qed.

Lemma deref_store_ne h a a' l : a ≠ a' → deref (<[a := l]> h) a' = deref h a'.
Proof. intros Ha. unfold deref. by rewrite list_lookup_insert_ne. Qed.

(** What [handle_leave] does for a member *)
Lemma handle_leave_member st client_id group c a :
  dict_get client_id (connected_clients st) = Some c →
  dict_get group (groups st) = Some a →
  name c ∈ deref (heap st) a →
  handle_leave client_id group st =
    (Val tt,
     set_heap (<[a := list_remove (name c) (deref (heap st) a)]> (heap st)) st,
     Send (client_socket c) ("You have left group '" +:+ group +:+ "'.")
     :: ((λ ci : nat * Client,
            Send (client_socket ci.2)
              ("User " +:+ name c +:+ " has left group '" +:+ group +:+ "'."))
           <$> filter (λ ci : nat * Client,
                         py_in (name ci.2)
                           (list_remove (name c) (deref (heap st) a)) = true)
                 (connected_clients st))).
Proof.
  intros Hc Ha Hin. pose proof (deref_lt _ _ _ Hin) as Hlt.
  apply py_in_true in Hin. unfold handle_leave. munfold.
  rewrite Hc. simpl. rewrite Ha. simpl. rewrite Hin. simpl.
  by rewrite (deref_store _ _ _ Hlt).
Qed.

(** What [handle_join] does for a group that does not exist *)
Lemma handle_join_new st client_id group c :
  dict_get client_id (connected_clients st) = Some c →
  dict_get group (groups st) = None →
  handle_join client_id group st =
    (Val tt,
     set_boards (dict_set group [] (boards st))
       (set_groups (dict_set group (length (heap st)) (groups st))
          (set_heap (heap st ++ [[name c]]) st)),
     [Send (client_socket c) ("Added to new group '" +:+ group +:+ "'.")]).
Proof.
  intros Hc Hg. unfold handle_join. munfold.
  rewrite Hc. simpl. by rewrite Hg.
Qed.

(** What [handle_join] does for a group the caller is not in, when the
    group has a board *)
Lemma handle_join_existing st client_id group c a b :
  dict_get client_id (connected_clients st) = Some c →
  dict_get group (groups st) = Some a →
  (a < length (heap st))%nat →
  name c ∉ deref (heap st) a →
  dict_get group (boards st) = Some b →
  handle_join client_id group st =
    (Val tt,
     set_heap (<[a := deref (heap st) a ++ [name c]]> (heap st)) st,
     ((λ ci : nat * Client,
         Send (client_socket ci.2)
           ("New member " +:+ name c +:+ " has joined group '" +:+ group
              +:+ "'."))
        <$> filter (λ ci : nat * Client,
                      negb (bool_decide (name_id ci.2 = name_id c))
                      && py_in (name ci.2) (deref (heap st) a ++ [name c])
                      = true)
              (connected_clients st))
     ++ [Send (client_socket c)
           ("Added to group '" +:+ group +:+ "'." +:+ nl
              +:+ "Current Members: "
              +:+ Text.join ", " (deref (heap st) a ++ [name c])
              +:+ (if bool_decide (0 < length b)%nat
                   then previous_messages (last_two (sorted (dict_keys b)))
                   else nl +:+ "No previous messages."))]).
Proof.
  intros Hc Ha Hlt Hout%py_in_false Hb. unfold handle_join. munfold.
  rewrite Hc. simpl. rewrite Ha. simpl. rewrite Hout. simpl.
  rewrite (deref_store _ _ _ Hlt). rewrite Hb. simpl. done.
Qed.

(** X8. A member who leaves ([leave ...] for "default", [groupleave <group>
    ...]) is told so and is taken out of the member list, which keeps its
    other names; the group itself, the boards and the registry stay as
    they are.  Exactly the registry entries whose name is still in the
    group get the departure notice.  (The list holds each name once: names
    are added by [append] after a test.) *)
Theorem leave_removes_the_caller today w data st group c a :
  ((∃ params, Text.split " " data = "leave" :: params) ∧ group = "default"
   ∨ ∃ params, Text.split " " data = "groupleave" :: group :: params) →
  dict_get (w_client_id w) (connected_clients st) = Some c →
  dict_get group (groups st) = Some a →
  name c ∈ deref (heap st) a →
  NoDup (deref (heap st) a) →
  ∃ st' out,
    open_connection_step today w data st =
      (Val Continue, st',
       Send (client_socket c) ("You have left group '" +:+ group +:+ "'.")
       :: out)
    ∧ groups st' = groups st ∧ boards st' = boards st
    ∧ connected_clients st' = connected_clients st
    ∧ (name c ∉ deref (heap st') a)
    ∧ (∀ x, x ≠ name c → x ∈ deref (heap st') a ↔ x ∈ deref (heap st) a)
    ∧ (∀ act, act ∈ out ↔
         ∃ cid' c', (cid', c') ∈ connected_clients st
                    ∧ name c' ∈ deref (heap st') a
                    ∧ act = Send (client_socket c')
                              ("User " +:+ name c +:+ " has left group '"
                                 +:+ group +:+ "'.")).
Proof.
  intros Hdata Hc Ha Hin Hnd.
  pose proof (handle_leave_member _ _ _ _ _ Hc Ha Hin) as Hleave.
  pose proof (deref_lt _ _ _ Hin) as Hlt.
  match type of Hleave with
  | _ = (_, ?st1, _ :: ?notices) => exists st1, notices
  end.
  split.
  { unfold open_connection_step. cbv zeta.
    destruct Hdata as [[[params Hsplit] ->]|[params Hsplit]];
      (destruct (decide (data = "")) as [->|_]; [discriminate Hsplit|]);
      rewrite Hsplit; simpl; verb.
    - rewrite (bind_val _ _ _ _ _ _ Hleave). simpl. by rewrite app_nil_r.
    - rewrite bind_get.
      assert (dict_mem group (groups st) = true) as ->
        by (apply dict_mem_true; eauto).
      rewrite (bind_val _ _ _ _ _ _ Hleave). simpl. by rewrite app_nil_r. }
  simpl. rewrite (deref_store _ _ _ Hlt).
  destruct (list_remove_NoDup (name c) _ Hnd) as [Hgone _].
  split_and!; try done.
  - intros x Hx. split; [apply list_remove_elem_of|by apply list_remove_other].
  - intros act. rewrite list_elem_of_fmap. split.
    + intros ([cid' c'] & -> & [Hp Hel]%list_elem_of_filter).
      exists cid', c'. by apply py_in_true in Hp.
    + intros (cid' & c' & Hel & Hp & ->). exists (cid', c'). split; [done|].
      apply list_elem_of_filter. split; [by apply py_in_true|done].
Qed.

Lemma leave_removes_the_caller_witness :
  ∃ st' out,
    open_connection_step day0
      {| w_client_id := 1; w_client_name := "bob"; w_client_socket := 11 |}
      "groupleave book-club" club_state =
      (Val Continue, st',
       Send 11%nat ("You have left group '" +:+ "book-club" +:+ "'.") :: out)
    ∧ groups st' = groups club_state ∧ boards st' = boards club_state
    ∧ connected_clients st' = connected_clients club_state
    ∧ ("bob" ∉ deref (heap st') 1)
    ∧ (∀ x, x ≠ "bob" →
            x ∈ deref (heap st') 1 ↔ x ∈ deref (heap club_state) 1)
    ∧ (∀ act, act ∈ out ↔
         ∃ cid' c', (cid', c') ∈ connected_clients club_state
                    ∧ name c' ∈ deref (heap st') 1
                    ∧ act = Send (client_socket c')
                              ("User " +:+ "bob" +:+ " has left group '"
                                 +:+ "book-club" +:+ "'.")).
Proof.
  apply (leave_removes_the_caller day0
           {| w_client_id := 1; w_client_name := "bob"; w_client_socket := 11 |}
           "groupleave book-club" club_state "book-club"
           {| name := "bob"; name_id := 101; group := "default";
              client_socket := 11 |} 1%nat).
  - right. by exists [].
  - reflexivity.
  - reflexivity.
  - vm_compute. right. left.
  - refine (bool_decide_unpack _ _). by vm_compute.
Defined.

(** X9. A join ([join ...] for "default", [groupjoin <group>]) of a group that
    does not exist creates it, last among the groups, with the caller as
    its only member and with an empty board; the other groups and boards
    and every list already stored stay as they are, and only the caller is
    told. *)
Theorem join_creates_the_group today w data st group c :
  ((∃ params, Text.split " " data = "join" :: params) ∧ group = "default"
   ∨ Text.split " " data = ["groupjoin"; group]) →
  dict_get (w_client_id w) (connected_clients st) = Some c →
  dict_get group (groups st) = None →
  ∃ st',
    open_connection_step today w data st =
      (Val Continue, st',
       [Send (client_socket c) ("Added to new group '" +:+ group +:+ "'.")])
    ∧ (∃ a, dict_get group (groups st') = Some a
            ∧ deref (heap st') a = [name c])
    ∧ dict_get group (boards st') = Some []
    ∧ dict_keys (groups st') = dict_keys (groups st) ++ [group]
    ∧ (∀ g, g ≠ group →
            dict_get g (groups st') = dict_get g (groups st)
            ∧ dict_get g (boards st') = dict_get g (boards st))
    ∧ heap st `prefix_of` heap st'
    ∧ connected_clients st' = connected_clients st.
Proof.
  intros Hdata Hc Hg.
  pose proof (handle_join_new _ _ _ _ Hc Hg) as Hjoin.
  eexists. split.
  { unfold open_connection_step. cbv zeta.
    destruct Hdata as [[[params Hsplit] ->]|Hsplit];
      (destruct (decide (data = "")) as [->|_]; [discriminate Hsplit|]);
      rewrite Hsplit; simpl; verb;
      by rewrite (bind_val _ _ _ _ _ _ Hjoin). }
  simpl. split_and!.
  - exists (length (heap st)). rewrite dict_get_set_eq. split; [done|].
    unfold deref. by rewrite lookup_app_r, Nat.sub_diag.
  - by rewrite dict_get_set_eq.
  - rewrite dict_set_keys_absent by done. unfold dict_keys.
    by rewrite fmap_app.
  - intros g Hne. by rewrite !dict_get_set_ne.
  - by exists [[name c]].
  - done.
Qed.

Lemma join_creates_the_group_witness :
  ∃ st',
    open_connection_step day0 alice_worker "groupjoin chess" alice_in_default
    = (Val Continue, st',
       [Send 7%nat ("Added to new group '" +:+ "chess" +:+ "'.")])
    ∧ (∃ a, dict_get "chess" (groups st') = Some a
            ∧ deref (heap st') a = ["alice"])
    ∧ dict_get "chess" (boards st') = Some []
    ∧ dict_keys (groups st') = dict_keys (groups alice_in_default) ++ ["chess"]
    ∧ (∀ g, g ≠ "chess" →
            dict_get g (groups st') = dict_get g (groups alice_in_default)
            ∧ dict_get g (boards st') = dict_get g (boards alice_in_default))
    ∧ heap alice_in_default `prefix_of` heap st'
    ∧ connected_clients st' = connected_clients alice_in_default.
Proof.
  apply (join_creates_the_group day0 alice_worker "groupjoin chess"
           alice_in_default "chess"
           {| name := "alice"; name_id := 0; group := "default";
              client_socket := 7 |}).
  - by right.
  - reflexivity.
  - reflexivity.
Defined.





(** X11. Joining a group one was not in and leaving it again gives back the
    state before the join: the member list is the list it was, name for
    name. *)
Theorem join_then_leave_restores st client_id group c a b :
  dict_get client_id (connected_clients st) = Some c →
  dict_get group (groups st) = Some a →
  (a < length (heap st))%nat →
  name c ∉ deref (heap st) a →
  dict_get group (boards st) = Some b →
  ∃ st1 o1 o2,
    handle_join client_id group st = (Val tt, st1, o1)
    ∧ handle_leave client_id group st1 = (Val tt, st, o2).
Proof.
  intros Hc Ha Hlt Hout Hb.
  pose proof (handle_join_existing _ _ _ _ _ _ Hc Ha Hlt Hout Hb) as Hjoin.
  eexists _, _, _. split; [exact Hjoin|].
  erewrite handle_leave_member; [| exact Hc | exact Ha |].
  - simpl. rewrite (deref_store _ _ _ Hlt), list_remove_snoc by done.
    rewrite list_insert_insert_eq.
    assert (<[a := deref (heap st) a]> (heap st) = heap st) as ->.
    { apply list_insert_id. unfold deref.
      destruct (lookup_lt_is_Some_2 (heap st) a Hlt) as [l ->]. done. }
    f_equal. f_equal. by destruct st.
  - simpl. rewrite (deref_store _ _ _ Hlt). apply elem_of_app. right. left.
Qed.

Lemma join_then_leave_restores_witness :
  ∃ st1 o1 o2,
    handle_join 0 "default" club_state = (Val tt, st1, o1)
    ∧ handle_leave 0 "default" st1 = (Val tt, club_state, o2).
Proof.
  apply (join_then_leave_restores club_state 0%nat "default"
           {| name := "alice"; name_id := 100; group := "book-club";
              client_socket := 10 |} 0%nat []).
  - reflexivity.
  - reflexivity.
  - simpl. lia.
  - vm_compute. intros H. inversion H as [|? ? ? H']; subst. inversion H'.
  - reflexivity.
Defined.

(** ** Disconnecting *)

Lemma dict_pop_elem_of {K V} `{!EqDecision K} (k k' : K) (v : V) d :
  (k', v) ∈ dict_pop k d → (k', v) ∈ d.
Proof.
  induction d as [|[k1 v1] d IH]; simpl; [done|].
  case_decide; [by right|].
  intros [->|?]%elem_of_cons; [by left|right; auto].
Qed.

Lemma dict_get_pop_ne {K V} `{!EqDecision K} (k k' : K) (d : list (K * V)) :
  k ≠ k' → dict_get k' (dict_pop k d) = dict_get k' d.
Proof.
  intros Hne. induction d as [|[k1 v1] d IH]; simpl; [done|].
  repeat (case_decide; simpl); congruence.
Qed.

Lemma dict_get_pop_eq {K V} `{!EqDecision K} (k : K) (d : list (K * V)) :
  NoDup (dict_keys d) → dict_get k (dict_pop k d) = None.
Proof.
  unfold dict_keys. induction d as [|[k1 v1] d IH]; simpl; [done|].
  intros [Hk Hd]%NoDup_cons. destruct (decide (k = k1)) as [->|Hne].
  - by apply dict_get_None_keys.
  - simpl. rewrite decide_False by done. auto.
Qed.

(** X12. [exit]: the caller gets the farewell text, the socket in its registry
    entry is closed, the entry is removed (and only that entry) and the
    loop ends by [return 0].  Groups, member lists and boards are as
    before: the user stays in the groups they were in. *)
Theorem exit_unregisters today w data st c params :
  Text.split " " data = "exit" :: params →
  dict_get (w_client_id w) (connected_clients st) = Some c →
  NoDup (dict_keys (connected_clients st)) →
  ∃ st',
    open_connection_step today w data st =
      (Val Return0, st',
       [Send (w_client_socket w) "You have been disconnected from the server.";
        Close (client_socket c)])
    ∧ dict_get (w_client_id w) (connected_clients st') = None
    ∧ (∀ cid', cid' ≠ w_client_id w →
               dict_get cid' (connected_clients st')
               = dict_get cid' (connected_clients st))
    ∧ groups st' = groups st ∧ boards st' = boards st ∧ heap st' = heap st
    ∧ client_ids st' = client_ids st.
Proof.
  intros Hsplit Hc Hnd. eexists. split.
  { unfold open_connection_step. cbv zeta.
    destruct (decide (data = "")) as [->|_]; [discriminate Hsplit|].
    rewrite Hsplit. simpl. verb. munfold. by rewrite Hc. }
  simpl. split_and!; try done.
  - by apply dict_get_pop_eq.
  - intros cid' Hne. by apply dict_get_pop_ne.
Qed.

Lemma exit_unregisters_witness :
  ∃ st',
    open_connection_step day0 alice_worker "exit" alice_in_default =
      (Val Return0, st',
       [Send 7%nat "You have been disconnected from the server."; Close 7%nat])
    ∧ dict_get 0%nat (connected_clients st') = None
    ∧ (∀ cid', cid' ≠ 0%nat →
               dict_get cid' (connected_clients st')
               = dict_get cid' (connected_clients alice_in_default))
    ∧ groups st' = groups alice_in_default
    ∧ boards st' = boards alice_in_default
    ∧ heap st' = heap alice_in_default
    ∧ client_ids st' = client_ids alice_in_default.
Proof.
  apply (exit_unregisters day0 alice_worker "exit" alice_in_default
           {| name := "alice"; name_id := 0; group := "default";
              client_socket := 7 |} []).
  - reflexivity.
  - reflexivity.
  - refine (bool_decide_unpack _ _). by vm_compute.
Defined.

(** X13. A connection that is closed by the peer (the read returns no data)
    ends the loop, and that is all: nothing is sent or closed and the
    registry keeps the entry, so that a later post to a group the user is
    in is still sent to the socket of that entry. *)
Theorem closed_connection_stays_registered
    sys today client_id w c' poster group subject message c a b :
  dict_get client_id (workers sys) = Some w →
  dict_get client_id (connected_clients (server sys)) = Some c' →
  dict_get poster (connected_clients (server sys)) = Some c →
  dict_get group (groups (server sys)) = Some a →
  name c ∈ deref (heap (server sys)) a →
  name c' ∈ deref (heap (server sys)) a →
  dict_get group (boards (server sys)) = Some b →
  step sys (Recv client_id "" today)
  = ({| server := server sys; workers := dict_pop client_id (workers sys) |},
     [])
  ∧ Send (client_socket c')
      (post_notice group (name c) (Z.of_nat (length b)))
    ∈ (handle_post today poster group subject message
         (server (step sys (Recv client_id "" today)).1)).2.
Proof.
  intros Hw Hc' Hc Ha Hin Hin' Hb.
  assert (step sys (Recv client_id "" today)
          = ({| server := server sys;
                workers := dict_pop client_id (workers sys) |}, [])) as Hstep.
  { simpl. by rewrite Hw. }
  split; [exact Hstep|]. rewrite Hstep. simpl.
  rewrite (handle_post_member _ _ _ _ _ _ _ _ _ Hc Ha Hin Hb). simpl.
  apply (list_elem_of_fmap_2' _ _ (client_id, c')); [|done].
  apply list_elem_of_filter. split; [by apply py_in_true|].
  by apply dict_get_elem_of.
Qed.

Lemma closed_connection_stays_registered_witness :
  let sys := {| server := club_state;
                workers := [(1%nat, {| w_client_id := 1;
                                       w_client_name := "bob";
                                       w_client_socket := 11 |})] |} in
  step sys (Recv 1 "" day0)
  = ({| server := server sys; workers := dict_pop 1%nat (workers sys) |}, [])
  ∧ Send 11%nat (post_notice "book-club" "alice" (Z.of_nat 1))
    ∈ (handle_post day0 0 "book-club" "s" ["b"]
         (server (step sys (Recv 1 "" day0)).1)).2.
Proof.
  apply (closed_connection_stays_registered
           {| server := club_state;
              workers := [(1%nat, {| w_client_id := 1; w_client_name := "bob";
                                     w_client_socket := 11 |})] |}
           day0 1%nat
           {| w_client_id := 1; w_client_name := "bob"; w_client_socket := 11 |}
           {| name := "bob"; name_id := 101; group := "default";
              client_socket := 11 |}
           0%nat "book-club" "s" ["b"]
           {| name := "alice"; name_id := 100; group := "book-club";
              client_socket := 10 |} 1%nat
           [(0, {| sender := "alice"; date_posted := DateObj day0;
                   subject := "Welcome"; message := "Hi all";
                   users_at_time_of_posting := 2 |})]).
  - reflexivity.
  - reflexivity.
  - reflexivity.
  - reflexivity.
  - vm_compute. left.
  - vm_compute. right. left.
  - reflexivity.
Defined.

(** ** Listing the groups *)

Lemma str_length_app s t :
  String.length (s +:+ t) = (String.length s + String.length t)%nat.
Proof.
  induction s as [|a s IH]; [done|]. rewrite str_app_cons. simpl. by rewrite IH.
Qed.

Lemma substring_app s t : String.substring 0 (String.length s) (s +:+ t) = s.
Proof.
  induction s as [|a s IH]; [by destruct t|].
  rewrite str_app_cons. simpl. by rewrite IH.
Qed.

Lemma drop_last2_app s : Text.drop_last2 (s +:+ ", ") = s.
Proof.
  unfold Text.drop_last2. rewrite str_length_app.
  change (String.length ", ") with 2%nat.
  by rewrite Nat.add_sub, substring_app.
Qed.

Lemma listing_loop gs : ∀ response,
  gs ≠ [] →
  foldl (λ response g, response +:+ g +:+ ", ") response gs
  = (response +:+ Text.join ", " gs) +:+ ", ".
Proof.
  induction gs as [|g gs IH]; intros response Hgs; [done|].
  cbn [foldl]. destruct gs as [|g' gs].
  - simpl. by rewrite !str_app_assoc.
  - rewrite IH by done.
    change (Text.join ", " (g :: g' :: gs))
      with (g +:+ ", " +:+ Text.join ", " (g' :: gs)).
    by rewrite !str_app_assoc.
Qed.

(** X14. [groups] is answered with the names of all groups, in the order they
    were created, separated by ", "; the state is unchanged and the loop
    goes on. *)
Theorem groups_are_listed today w data st params :
  Text.split " " data = "groups" :: params →
  groups st ≠ [] →
  open_connection_step today w data st =
    (Val Continue, st,
     [Send (w_client_socket w)
        ("Available groups: " +:+ Text.join ", " (dict_keys (groups st)))]).
Proof.
  intros Hsplit Hgs. unfold open_connection_step. cbv zeta.
  destruct (decide (data = "")) as [->|_]; [discriminate Hsplit|].
  rewrite Hsplit. simpl. verb. rewrite bind_get.
  rewrite listing_loop by (by destruct (groups st)).
  by rewrite drop_last2_app.
Qed.

Lemma groups_are_listed_witness :
  open_connection_step day0 alice_worker "groups" club_state =
    (Val Continue, club_state,
     [Send 7%nat
        ("Available groups: "
           +:+ Text.join ", " (dict_keys (groups club_state)))]).
Proof.
  apply (groups_are_listed day0 alice_worker "groups" club_state []).
  - reflexivity.
  - discriminate.
Defined.

(** ** The handshake *)

(** The loop of [add_clients_groups] that gives every group a board: the
    boards that exist stay, every group named has one afterwards, and a
    board that is new is empty. *)
Lemma ensure_boards_spec gs : ∀ b : list (string * list (Z * Message)),
  let b' := foldl (λ b g, if negb (dict_mem g b) then dict_set g [] b else b)
              b gs in
  (∀ g bd, dict_get g b = Some bd → dict_get g b' = Some bd)
  ∧ (∀ g, g ∈ gs → is_Some (dict_get g b'))
  ∧ (∀ g bd, dict_get g b' = Some bd →
             dict_get g b = Some bd ∨ bd = [] ∧ g ∈ gs).
Proof.
  induction gs as [|g0 gs IH]; intros b; cbn [foldl].
  - split_and!; [done| |by left]. intros g []%elem_of_nil.
  - destruct (IH (if negb (dict_mem g0 b) then dict_set g0 [] b else b))
      as (Hkeep & Hall & Hnew).
    destruct (dict_mem g0 b) eqn:Hmem; cbn [negb] in *.
    + split_and!; [done| |].
      * intros g [->|Hin]%elem_of_cons; [|by apply Hall].
        apply dict_mem_true in Hmem as [bd Hbd]. exists bd. by apply Hkeep.
      * intros g bd [?|[-> ?]]%Hnew; [by left|right]. split; [done|by right].
    + apply dict_mem_false in Hmem. split_and!.
      * intros g bd Hg. apply Hkeep. rewrite dict_get_set_ne; [done|].
        intros ->. congruence.
      * intros g [->|Hin]%elem_of_cons; [|by apply Hall].
        exists []. apply Hkeep. by rewrite dict_get_set_eq.
      * intros g bd [Hg|[-> ?]]%Hnew; [|right; split; [done|by right]].
        destruct (decide (g0 = g)) as [->|Hne].
        -- rewrite dict_get_set_eq in Hg. injection Hg as <-.
           right. split; [done|left].
        -- rewrite dict_get_set_ne in Hg by done. by left.
Qed.

(** [add_clients_groups] never raises and sends nothing.  It counts the
    client, registers it under [client_id], puts the name into the group
    (making the group if need be, and not adding a name twice), and leaves
    every group with a board; boards that exist are not touched. *)
Lemma add_clients_groups_run
    client_id client_name client_name_id client_group sock st :
  allocated st →
  ∃ st',
    add_clients_groups client_id client_name client_name_id client_group sock
      st = (Val tt, st', [])
    ∧ client_ids st' = (client_ids st + 1)%nat
    ∧ connected_clients st'
      = dict_set client_id
          {| name := client_name; name_id := client_name_id;
             group := client_group; client_socket := sock |}
          (connected_clients st)
    ∧ (∃ a, dict_get client_group (groups st') = Some a
            ∧ client_name ∈ deref (heap st') a)
    ∧ dict_keys (groups st')
      = (if dict_mem client_group (groups st) then dict_keys (groups st)
         else dict_keys (groups st) ++ [client_group])
    ∧ (∀ g, g ∈ dict_keys (groups st') → is_Some (dict_get g (boards st')))
    ∧ is_Some (dict_get "default" (boards st'))
    ∧ (∀ g b, dict_get g (boards st) = Some b →
              dict_get g (boards st') = Some b).
Proof.
  intros Hal. unfold add_clients_groups. munfold. simpl.
  destruct (dict_get client_group (groups st)) as [a|] eqn:Hg; simpl.
  - assert (dict_mem client_group (groups st) = true) as ->
      by (apply dict_mem_true; eauto).
    pose proof (Hal _ _ (dict_get_elem_of _ _ _ Hg)) as Hlt.
    destruct (py_in client_name (deref (heap st) a)) eqn:Hin; simpl;
      (destruct (dict_mem "default" (boards st)) eqn:Hdef; simpl);
      (eexists; split; [reflexivity|]; simpl);
      match goal with
      | |- context [foldl ?f ?b ?gs] =>
          destruct (ensure_boards_spec gs b) as (Hkeep & Hall & _)
      end;
      split_and!; try done.
    all: try (exists a; split; [done|]).
    all: try (by apply py_in_true in Hin).
    all: try (rewrite (deref_store _ _ _ Hlt); apply elem_of_app; right; left).
    all: try (apply dict_mem_true in Hdef as [bd Hbd]; exists bd;
              by apply Hkeep).
    all: try (exists []; apply Hkeep; by rewrite dict_get_set_eq).
    all: intros g b Hb; apply Hkeep; try done.
    all: rewrite dict_get_set_ne; [done|]; intros <-;
      apply dict_mem_false in Hdef; congruence.
  - assert (dict_mem client_group (groups st) = false) as ->
      by (by apply dict_mem_false).
    destruct (dict_mem "default" (boards st)) eqn:Hdef; simpl;
      (eexists; split; [reflexivity|]; simpl);
      match goal with
      | |- context [foldl ?f ?b ?gs] =>
          destruct (ensure_boards_spec gs b) as (Hkeep & Hall & _)
      end;
      split_and!; try done.
    all: try (exists (length (heap st)); rewrite dict_get_set_eq;
              split; [done|]; unfold deref;
              rewrite lookup_app_r, Nat.sub_diag by lia; left).
    all: try (rewrite dict_set_keys_absent by done; unfold dict_keys;
              by rewrite fmap_app).
    all: try (apply dict_mem_true in Hdef as [bd Hbd]; exists bd;
              by apply Hkeep).
    all: try (exists []; apply Hkeep; by rewrite dict_get_set_eq).
    all: intros g b Hb; apply Hkeep; try done.
    all: rewrite dict_get_set_ne; [done|]; intros <-;
      apply dict_mem_false in Hdef; congruence.
Qed.

Lemma example_groups_message_some st :
  groups st ≠ [] →
  example_groups_message st
  = Some (" Current server groups: "
            +:+ Text.join ", " (take 5 (dict_keys (groups st)))).
Proof.
  intros Hgs. unfold example_groups_message. cbv zeta.
  rewrite bool_decide_eq_true_2.
  - rewrite bool_decide_eq_false_2; [done|]. rewrite length_take. lia.
  - destruct (groups st); [done|]. simpl. lia.
Qed.

Lemma filter_others {A} (P : A → Prop) `{!∀ x, Decision (P x)} l x :
  Forall P l → ¬ P x → filter P (l ++ [x]) = l.
Proof.
  intros Hl Hx. rewrite filter_app.
  induction Hl as [|y l Hy Hl IH].
  - simpl. by rewrite filter_cons_False, filter_nil by done.
  - rewrite filter_cons_True by done. simpl. f_equal. exact IH.
Qed.

(** X15. A first frame without a space ends the thread with [IndexError] before
    anything is counted, registered or sent. *)
Theorem handshake_needs_a_group sock client_name_id client_info st :
  no_char " " client_info = true →
  open_connection_handshake sock client_name_id client_info st
  = (Raise IndexError, st, []).
Proof.
  intros Hinfo. unfold open_connection_handshake. cbv zeta.
  rewrite (split_no_char _ _ Hinfo). by munfold.
Qed.

Lemma handshake_needs_a_group_witness :
  open_connection_handshake 7 0 "alice" init = (Raise IndexError, init, []).
Proof. apply (handshake_needs_a_group 7 0 "alice" init). reflexivity. Defined.

(** What the handshake does for a frame with a name and a group *)
Lemma open_connection_handshake_run
    sock client_name_id client_info st client_name client_group rest :
  Text.split " " client_info = client_name :: client_group :: rest →
  allocated st →
  (∀ cid c, (cid, c) ∈ connected_clients st → (cid < client_ids st)%nat) →
  ∃ st',
    open_connection_handshake sock client_name_id client_info st =
      (Val {| w_client_id := client_ids st; w_client_name := client_name;
              w_client_socket := sock |},
       st',
       ((λ ci : nat * Client,
           Send (client_socket ci.2)
             (client_name +:+ " has joined the server (client ID #"
                +:+ pretty (client_ids st) +:+ "). "))
          <$> connected_clients st)
       ++ [Send sock
             ("id " +:+ pretty (client_ids st) +:+ " Current server groups: "
                +:+ Text.join ", " (take 5 (dict_keys (groups st'))))])
    ∧ client_ids st' = (client_ids st + 1)%nat
    ∧ connected_clients st'
      = connected_clients st
        ++ [(client_ids st,
             {| name := client_name; name_id := client_name_id;
                group := client_group; client_socket := sock |})]
    ∧ (∃ a, dict_get client_group (groups st') = Some a
            ∧ client_name ∈ deref (heap st') a)
    ∧ (∀ g, g ∈ dict_keys (groups st') → is_Some (dict_get g (boards st')))
    ∧ (∀ g b, dict_get g (boards st) = Some b →
              dict_get g (boards st') = Some b).
Proof.
  intros Hsplit Hal Hids.
  destruct (add_clients_groups_run (client_ids st) client_name client_name_id
              client_group sock st Hal)
    as (st' & Hadd & Hcount & Hreg & Hmem & _ & Hboards & _ & Hkeep).
  assert (dict_get (client_ids st) (connected_clients st) = None) as Hfresh.
  { apply dict_get_None_keys. intros ([cid c] & Heq & Hin)%list_elem_of_fmap.
    apply Hids in Hin. simpl in Heq. lia. }
  rewrite dict_set_keys_absent in Hreg by done.
  exists st'. split; [|by split_and!].
  unfold open_connection_handshake, broadcast_client_join. cbv zeta.
  rewrite Hsplit. munfold. simpl. rewrite Hadd. simpl.
  rewrite example_groups_message_some.
  2:{ destruct Hmem as (a & Ha & _). by destruct (groups st'). }
  simpl. rewrite Hreg, filter_others.
  - done.
  - apply Forall_forall. intros [cid c] Hin. simpl.
    apply Hids in Hin. rewrite negb_true_iff, bool_decide_eq_false. lia.
  - simpl. rewrite bool_decide_eq_true_2; done.
Qed.

(** X16. A first frame "<name> <group> ..." always gets through.  The client
    gets the value of the counter as its id and the counter goes up by
    one; the registry gets the entry, last; the name is in the group (the
    group is made if it did not exist) and every group has a board.  Every
    client registered before is told, in registry order, that the name has
    joined; then the new client is sent "id <id>" and the names of the
    first five groups.  What was asked of the state holds of the new state
    as well: the next connection gets through in the same way. *)
Theorem handshake_registers
    sock client_name_id client_info st client_name client_group rest :
  Text.split " " client_info = client_name :: client_group :: rest →
  allocated st →
  (∀ cid c, (cid, c) ∈ connected_clients st → (cid < client_ids st)%nat) →
  ∃ st',
    open_connection_handshake sock client_name_id client_info st =
      (Val {| w_client_id := client_ids st; w_client_name := client_name;
              w_client_socket := sock |},
       st',
       ((λ ci : nat * Client,
           Send (client_socket ci.2)
             (client_name +:+ " has joined the server (client ID #"
                +:+ pretty (client_ids st) +:+ "). "))
          <$> connected_clients st)
       ++ [Send sock
             ("id " +:+ pretty (client_ids st) +:+ " Current server groups: "
                +:+ Text.join ", " (take 5 (dict_keys (groups st'))))])
    ∧ client_ids st' = (client_ids st + 1)%nat
    ∧ connected_clients st'
      = connected_clients st
        ++ [(client_ids st,
             {| name := client_name; name_id := client_name_id;
                group := client_group; client_socket := sock |})]
    ∧ (∃ a, dict_get client_group (groups st') = Some a
            ∧ client_name ∈ deref (heap st') a)
    ∧ (∀ g, g ∈ dict_keys (groups st') → is_Some (dict_get g (boards st')))
    ∧ (∀ g b, dict_get g (boards st) = Some b →
              dict_get g (boards st') = Some b)
    ∧ allocated st'
    ∧ (∀ cid c, (cid, c) ∈ connected_clients st' →
                (cid < client_ids st')%nat).
Proof.
  intros Hsplit Hal Hids.
  destruct (open_connection_handshake_run sock client_name_id _ st _ _ _
              Hsplit Hal Hids)
    as (st' & Hrun & Hcount & Hreg & Hmem & Hboards & Hkeep).
  exists st'. split_and!; try done.
  - pose proof (open_connection_handshake_sound _ _ _ _ _ _ _ Hrun) as Hw.
    clear -Hw Hal. induction Hw; eauto using write_allocated.
  - intros cid c Hin. rewrite Hreg in Hin. rewrite Hcount.
    apply elem_of_app in Hin as [Hin|Hin].
    + apply Hids in Hin. lia.
    + apply list_elem_of_singleton in Hin as [= -> _]. lia.
Qed.

Lemma handshake_registers_witness :
  ∃ st',
    open_connection_handshake 12 102 "carol book-club" club_state =
      (Val {| w_client_id := client_ids club_state; w_client_name := "carol";
              w_client_socket := 12 |},
       st',
       ((λ ci : nat * Client,
           Send (client_socket ci.2)
             ("carol" +:+ " has joined the server (client ID #"
                +:+ pretty (client_ids club_state) +:+ "). "))
          <$> connected_clients club_state)
       ++ [Send 12%nat
             ("id " +:+ pretty (client_ids club_state)
                +:+ " Current server groups: "
                +:+ Text.join ", " (take 5 (dict_keys (groups st'))))])
    ∧ client_ids st' = (client_ids club_state + 1)%nat
    ∧ connected_clients st'
      = connected_clients club_state
        ++ [(client_ids club_state,
             {| name := "carol"; name_id := 102; group := "book-club";
                client_socket := 12 |})]
    ∧ (∃ a, dict_get "book-club" (groups st') = Some a
            ∧ "carol" ∈ deref (heap st') a)
    ∧ (∀ g, g ∈ dict_keys (groups st') → is_Some (dict_get g (boards st')))
    ∧ (∀ g b, dict_get g (boards club_state) = Some b →
              dict_get g (boards st') = Some b)
    ∧ allocated st'
    ∧ (∀ cid c, (cid, c) ∈ connected_clients st' →
                (cid < client_ids st')%nat).
Proof.
  apply (handshake_registers 12 102 "carol book-club" club_state "carol"
           "book-club" []).
  - reflexivity.
  - intros g a Hin. simpl in Hin.
    repeat (apply elem_of_cons in Hin as [[= -> ->]|Hin]; [simpl; lia|]).
    by apply elem_of_nil in Hin.
  - intros cid c Hin. simpl in Hin.
    repeat (apply elem_of_cons in Hin as [[= -> ->]|Hin]; [simpl; lia|]).
    by apply elem_of_nil in Hin.
Defined.

(** ** Client and server together *)

(** X17. The client's first frame is understood as meant: the server registers
    the user under the name typed, whole, with its spaces turned into
    dashes, and puts it into the group named by the first word of the
    group typed ("default" when none was typed). *)
Theorem hello_is_understood sock client_name_id typed_name typed_group st :
  allocated st →
  (∀ cid c, (cid, c) ∈ connected_clients st → (cid < client_ids st)%nat) →
  ∃ w st' out a,
    open_connection_handshake sock client_name_id
      (replace_spaces typed_name +:+ " " +:+ group_or_default typed_group) st
    = (Val w, st', out)
    ∧ w_client_name w = replace_spaces typed_name
    ∧ dict_get (default "" (head (Text.split " " (group_or_default typed_group))))
        (groups st') = Some a
    ∧ replace_spaces typed_name ∈ deref (heap st') a.
Proof.
  intros Hal Hids.
  pose proof (split_field " " (replace_spaces typed_name)
                (group_or_default typed_group)
                (replace_spaces_no_space typed_name)) as Hsplit.
  pose proof (split_not_nil " " (group_or_default typed_group)) as Hnil.
  destruct (Text.split " " (group_or_default typed_group)) as [|g rest];
    [done|].
  destruct (open_connection_handshake_run sock client_name_id _ st _ _ _
              Hsplit Hal Hids) as (st' & Hrun & _ & _ & (a & Ha & Hin) & _).
  by eexists _, st', _, a.
Qed.

Lemma hello_is_understood_witness :
  ∃ w st' out a,
    open_connection_handshake 7 0
      (replace_spaces "alice b" +:+ " " +:+ group_or_default "") init
    = (Val w, st', out)
    ∧ w_client_name w = replace_spaces "alice b"
    ∧ dict_get (default "" (head (Text.split " " (group_or_default ""))))
        (groups st') = Some a
    ∧ replace_spaces "alice b" ∈ deref (heap st') a.
Proof.
  apply (hello_is_understood 7 0 "alice b" "" init).
  - intros g a [= -> ->]%list_elem_of_singleton. simpl. lia.
  - intros cid c Hin. by apply elem_of_nil in Hin.
Defined.

Lemma prefix_app s t : String.prefix s (s +:+ t) = true.
Proof.
  induction s as [|a s IH]; [by destruct t|].
  rewrite str_app_cons. cbn [String.prefix].
  by destruct (Ascii.ascii_dec a a).
Qed.

Lemma reader_reads_the_reply (n : nat) text :
  client_read_server_response_step ("id " +:+ pretty n +:+ " " +:+ text)
  = SetId (Z.of_nat n) text.
Proof.
  unfold client_read_server_response_step.
  rewrite (prefix_app "id ").
  change ("id " +:+ pretty n +:+ " " +:+ text)
    with ("id" +:+ String " " (pretty n +:+ String " " text)).
  rewrite (split_field " " "id") by done.
  rewrite (split_field " " (pretty n)) by apply pretty_nat_no_space.
  cbn [lookup list_lookup default from_option id].
  rewrite py_int_pretty_nat.
  change (drop 2 ("id" :: pretty n :: Text.split " " text))
    with (Text.split " " text).
  by rewrite (join_split " ").
Qed.

(** X18. The reader thread of the client takes from the reply to its own
    handshake exactly the id the server assigned, and keeps the list of
    groups as the text to show. *)
Theorem reply_sets_the_id
    sock client_name_id client_info st client_name client_group rest :
  Text.split " " client_info = client_name :: client_group :: rest →
  allocated st →
  (∀ cid c, (cid, c) ∈ connected_clients st → (cid < client_ids st)%nat) →
  ∃ w st' notices reply,
    open_connection_handshake sock client_name_id client_info st
    = (Val w, st', notices ++ [Send sock reply])
    ∧ client_read_server_response_step reply
      = SetId (Z.of_nat (w_client_id w))
          ("Current server groups: "
             +:+ Text.join ", " (take 5 (dict_keys (groups st')))).
Proof.
  intros Hsplit Hal Hids.
  destruct (open_connection_handshake_run sock client_name_id _ st _ _ _
              Hsplit Hal Hids) as (st' & Hrun & _).
  eexists _, st', _, _. split; [exact Hrun|].
  apply (reader_reads_the_reply (client_ids st)).
Qed.

Lemma reply_sets_the_id_witness :
  ∃ w st' notices reply,
    open_connection_handshake 7 0 "alice default" init
    = (Val w, st', notices ++ [Send 7%nat reply])
    ∧ client_read_server_response_step reply
      = SetId (Z.of_nat (w_client_id w))
          ("Current server groups: "
             +:+ Text.join ", " (take 5 (dict_keys (groups st')))).
Proof.
  apply (reply_sets_the_id 7 0 "alice default" init "alice" "default" []).
  - reflexivity.
  - intros g a [= -> ->]%list_elem_of_singleton. simpl. lia.
  - intros cid c Hin. by apply elem_of_nil in Hin.
Defined.

Lemma reader_fails_on_id_text word text :
  Text.py_int word = None → no_char " " word = true →
  client_read_server_response_step ("id " +:+ word +:+ " " +:+ text)
  = ReaderValueError.
Proof.
  intros Hint Hword. unfold client_read_server_response_step.
  rewrite (prefix_app "id ").
  change ("id " +:+ word +:+ " " +:+ text)
    with ("id" +:+ String " " (word +:+ String " " text)).
  rewrite (split_field " " "id") by done.
  rewrite (split_field " " word) by done.
  cbn [lookup list_lookup default from_option id]. by rewrite Hint.
Qed.

(** X19. A frame that starts with "id " is taken for a handshake reply whatever
    it is.  When a user named "id" connects, the announcement sent to
    every client registered before is such a frame, with "has" where the
    number should be: their reader threads end with [ValueError]. *)
Theorem user_named_id_stops_the_readers
    sock client_name_id client_info st client_group rest :
  Text.split " " client_info = "id" :: client_group :: rest →
  allocated st →
  (∀ cid c, (cid, c) ∈ connected_clients st → (cid < client_ids st)%nat) →
  ∃ w st' notices reply,
    open_connection_handshake sock client_name_id client_info st
    = (Val w, st', notices ++ [Send sock reply])
    ∧ length notices = length (connected_clients st)
    ∧ ∀ act, act ∈ notices →
        ∃ s text, act = Send s text
                  ∧ client_read_server_response_step text = ReaderValueError.
Proof.
  intros Hsplit Hal Hids.
  destruct (open_connection_handshake_run sock client_name_id _ st _ _ _
              Hsplit Hal Hids) as (st' & Hrun & _).
  eexists _, st', _, _. split; [exact Hrun|]. split; [by rewrite length_fmap|].
  intros act ([cid c] & -> & _)%list_elem_of_fmap. eexists _, _.
  split; [done|].
  apply (reader_fails_on_id_text "has"); done.
Qed.

Lemma user_named_id_stops_the_readers_witness :
  ∃ w st' notices reply,
    open_connection_handshake 12 102 "id default" club_state
    = (Val w, st', notices ++ [Send 12%nat reply])
    ∧ length notices = length (connected_clients club_state)
    ∧ ∀ act, act ∈ notices →
        ∃ s text, act = Send s text
                  ∧ client_read_server_response_step text = ReaderValueError.
Proof.
  apply (user_named_id_stops_the_readers 12 102 "id default" club_state
           "default" []).
  - reflexivity.
  - intros g a Hin. simpl in Hin.
    repeat (apply elem_of_cons in Hin as [[= -> ->]|Hin]; [simpl; lia|]).
    by apply elem_of_nil in Hin.
  - intros cid c Hin. simpl in Hin.
    repeat (apply elem_of_cons in Hin as [[= -> ->]|Hin]; [simpl; lia|]).
    by apply elem_of_nil in Hin.
Defined.

(** ** A post read back *)

(** X20. What a member posts is what it reads back: after "grouppost <group>
    <subject> <text>", where the text may hold any spaces, the read of the
    id that the post was given returns the sender, the day of the post,
    the subject and the text character for character. *)
Theorem post_then_read today later w st group subj body c a b :
  no_char " " group = true → no_char " " subj = true →
  dict_get (w_client_id w) (connected_clients st) = Some c →
  dict_get group (groups st) = Some a →
  name c ∈ deref (heap st) a →
  dict_get group (boards st) = Some b →
  ∃ st1 notices,
    open_connection_step today w
      ("grouppost " +:+ group +:+ " " +:+ subj +:+ " " +:+ body) st
    = (Val Continue, st1, notices)
    ∧ open_connection_step later w
        ("groupmessage " +:+ group +:+ " " +:+ pretty (length b)) st1
      = (Val Continue, st1,
         [Send (client_socket c)
            (name c +:+ " on " +:+ isoformat today +:+ " (" +:+ subj
               +:+ "): " +:+ body)]).
Proof.
  intros Hgroup Hsubj Hc Ha Hin Hb.
  pose proof (deref_lt _ _ _ Hin) as Hlt.
  pose proof (handle_post_member today st (w_client_id w) group subj
                (Text.split " " body) c a b Hc Ha Hin Hb) as Hpost.
  match type of Hpost with _ = (_, ?st1, ?notices) =>
    exists st1, (notices ++ []); set (st1' := st1) in *
  end.
  assert (handle_message (w_client_id w) group (pretty (length b)) st1'
          = (Val tt, st1',
             [Send (client_socket c)
                (name c +:+ " on " +:+ isoformat today +:+ " (" +:+ subj
                   +:+ "): " +:+ body)])) as Hread.
  { rewrite (handle_message_found st1' (w_client_id w) group
               (pretty (length b)) c a
               (dict_set (Z.of_nat (length b))
                  (posted today (name c) subj (Text.split " " body)
                     (length (heap st))) b)
               (Z.of_nat (length b))
               (posted today (name c) subj (Text.split " " body)
                  (length (heap st)))).
    - simpl. rewrite (deref_new (heap st) _ _ (reflexivity _)).
      rewrite (proj2 (py_in_true _ _) Hin). unfold render. simpl.
      by rewrite (join_split " ").
    - done.
    - done.
    - simpl. by rewrite deref_app.
    - simpl. apply dict_get_set_eq.
    - apply py_int_pretty_nat.
    - apply dict_get_set_eq. }
  split.
  - change ("grouppost " +:+ group +:+ " " +:+ subj +:+ " " +:+ body)
      with ("grouppost"
              +:+ String " " (group +:+ String " " (subj +:+ String " " body))).
    unfold open_connection_step. cbv zeta.
    rewrite (split_field " " "grouppost") by done.
    rewrite (split_field " " group), (split_field " " subj) by done.
    rewrite decide_False by done.
    pose proof (split_not_nil " " body) as Hnil.
    destruct (Text.split " " body) as [|word words] eqn:Hbody; [done|].
    simpl. verb. unfold call_handle_post.
    by rewrite (bind_val _ _ _ _ _ _ Hpost).
  - change ("groupmessage " +:+ group +:+ " " +:+ pretty (length b))
      with ("groupmessage" +:+ String " " (group +:+ String " " (pretty (length b)))).
    unfold open_connection_step. cbv zeta.
    rewrite (split_field " " "groupmessage") by done.
    rewrite (split_field " " group) by done.
    rewrite (split_no_char " " (pretty (length b)))
      by apply pretty_nat_no_space.
    rewrite decide_False by done.
    cbn [head tail from_option id length]. verb.
    rewrite bool_decide_eq_false_2 by lia.
    unfold call_handle_message.
    by rewrite (bind_val _ _ _ _ _ _ Hread).
Qed.

Lemma post_then_read_witness :
  ∃ st1 notices,
    open_connection_step day0 alice_worker
      ("grouppost " +:+ "default" +:+ " " +:+ "Hi" +:+ " " +:+ "see  you all")
      alice_in_default
    = (Val Continue, st1, notices)
    ∧ open_connection_step day0 alice_worker
        ("groupmessage " +:+ "default" +:+ " " +:+ pretty (@length (Z * Message) []))
        st1
      = (Val Continue, st1,
         [Send 7%nat
            ("alice" +:+ " on " +:+ isoformat day0 +:+ " (" +:+ "Hi"
               +:+ "): " +:+ "see  you all")]).
Proof.
  apply (post_then_read day0 day0 alice_worker alice_in_default "default"
           "Hi" "see  you all"
           {| name := "alice"; name_id := 0; group := "default";
              client_socket := 7 |} 0%nat []).
  - reflexivity.
  - reflexivity.
  - reflexivity.
  - reflexivity.
  - simpl. by apply list_elem_of_singleton.
  - reflexivity.
Defined.

(** ** Every state change is one the code has tested for *)



Lemma grow_write h st st' : grow h st st' → writes st st'.
Proof.
  intros H.
  destruct H as [st|st cid c Hc|st cid|st g a x Ha Hx|st g a x Ha|st g x Hh Hg
                |st g x Hg|st g Hg Hb|st g a b m Ha Hb Hm].
  - apply writes_1, write_ids.
  - apply writes_1, write_clients.
  - apply writes_1, write_clients.
  - by apply writes_1, (write_members st g a).
  - by apply writes_1, (write_members st g a).
  - by apply writes_1, (write_new_group st g).
  - eapply rtc_r; [apply writes_1, (write_new_group st g [x] Hg)|].
    apply (write_new_board
             (set_groups (dict_set g (length (heap st)) (groups st))
                (set_heap (heap st ++ [[x]]) st)) g).
  - apply writes_1, write_new_board.
  - by apply writes_1, write_post.
Qed.


Section Tracked.
Context {A B : Type} (h : bool).

Lemma tracked_ret (a : A) : tracked h (mret a).
Proof. intros st r st' out [= <- <- <-]. apply rtc_refl. Qed.

Lemma tracked_raise e : tracked h (@raise A e).
Proof. intros st r st' out [= <- <- <-]. apply rtc_refl. Qed.

Lemma tracked_lift e (o : option A) : tracked h (lift e o).
Proof. destruct o; [apply tracked_ret | apply tracked_raise]. Qed.

Lemma tracked_bind (m : M A) (f : A → M B) :
  tracked h m → (∀ a, tracked h (f a)) → tracked h (m ≫= f).
Proof.
  intros Hm Hf st r st' out
    [(e & o & H)|(a & st1 & o1 & o2 & H1 & H2 & _)]%bind_inv.
  - by eapply Hm.
  - etrans; [by eapply Hm | by eapply Hf].
Qed.
End Tracked.

Lemma tracked_get h : tracked h get.
Proof. intros st r st' out [= <- <- <-]. apply rtc_refl. Qed.

Lemma tracked_emit h o : tracked h (emit o).
Proof. intros st r st' out [= <- <- <-]. apply rtc_refl. Qed.

Lemma tracked_send h sock text : tracked h (send sock text).
Proof. apply tracked_emit. Qed.

Lemma tracked_exit h cid :
  tracked h (modify (λ st, set_connected_clients
                             (dict_pop cid (connected_clients st)) st)).
Proof.
  intros st r st' out [= <- <- <-]. apply rtc_once, grow_exit.
Qed.

Lemma dict_keys_is_Some {K V} `{!EqDecision K} (k : K) (d : list (K * V)) :
  k ∈ dict_keys d → is_Some (dict_get k d).
Proof.
  intros Hin. destruct (dict_get k d) eqn:E; [done|].
  by apply dict_get_None_keys in E.
Qed.

Lemma ensure_boards_grows h gs : ∀ st,
  (∀ g, g ∈ gs → is_Some (dict_get g (groups st))) →
  rtc (grow h) st
    (set_boards
       (foldl (λ b g, if negb (dict_mem g b) then dict_set g [] b else b)
          (boards st) gs) st).
Proof.
  induction gs as [|g gs IH]; intros st Hgs; simpl.
  - destruct st; apply rtc_refl.
  - destruct (dict_mem g (boards st)) eqn:Hmem; simpl.
    + apply IH. intros g' Hg'. apply Hgs. by right.
    + eapply rtc_l.
      * apply (grow_board h st g); [apply Hgs; left|].
        by apply dict_mem_false.
      * apply (IH (set_boards (dict_set g [] (boards st)) st)).
        intros g' Hg'. apply Hgs. by right.
Qed.

(** The tests the code has made, as the constructors of [grow] ask them *)
Ltac tested :=
  simpl in *;
  first
    [ eassumption
    | lia
    | match goal with
      | H : negb (py_in ?x ?l) = true |- ?x ∉ ?l =>
          by apply py_in_false, negb_true_iff
      | H : py_in ?x ?l = false |- ?x ∉ ?l => by apply py_in_false
      end ].

(** Read the writes off an explicit final state, the last one first. *)
Ltac chain_grows :=
  lazymatch goal with
  | |- rtc (grow _) ?x ?x => apply rtc_refl
  | |- rtc (grow _) _ (set_boards (foldl _ _ _) ?y) =>
      etrans; [|apply (ensure_boards_grows _ _ y);
                 intros ? ?; by apply dict_keys_is_Some];
      chain_grows
  | |- rtc (grow _) _
         (set_boards (dict_set ?g [] _)
            (set_groups (dict_set ?g _ _) (set_heap (_ ++ [[?x]]) ?y))) =>
      eapply rtc_r; [|apply (grow_create _ y g x); tested]; chain_grows
  | |- rtc (grow _) _
         (set_boards (dict_set ?g (dict_set _ ?m ?b) _)
            (set_heap (_ ++ [deref _ ?a]) ?y)) =>
      eapply rtc_r; [|apply (grow_post _ y g a b m); tested]; chain_grows
  | |- rtc (grow _) _
         (set_groups (dict_set ?g _ _) (set_heap (_ ++ [[?x]]) ?y)) =>
      eapply rtc_r; [|apply (grow_group _ y g x); [done|tested]]; chain_grows
  | |- rtc (grow _) _ (set_heap (<[?a := _ ++ [?x]]> _) ?y) =>
      eapply rtc_r; [|eapply (grow_append _ y _ a x); tested]; chain_grows
  | |- rtc (grow _) _ (set_heap (<[?a := list_remove ?x _]> _) ?y) =>
      eapply rtc_r; [|eapply (grow_remove _ y _ a x); tested]; chain_grows
  | |- rtc (grow _) _ (set_connected_clients (dict_set ?cid ?c _) ?y) =>
      eapply rtc_r; [|apply (grow_connect _ y cid c); tested]; chain_grows
  | |- rtc (grow _) _ (set_connected_clients (dict_pop ?cid _) ?y) =>
      eapply rtc_r; [|apply (grow_exit _ y cid)]; chain_grows
  | |- rtc (grow _) _ (set_client_ids _ ?y) =>
      eapply rtc_r; [|apply (grow_ids _ y)]; chain_grows
  end.

Lemma handle_join_tracked h client_id group :
  tracked h (handle_join client_id group).
Proof.
  intros st r st' out. unfold handle_join. munfold. intros H.
  repeat case_match; simplify_eq; chain_grows.
Qed.

Lemma handle_leave_tracked h client_id group :
  tracked h (handle_leave client_id group).
Proof.
  intros st r st' out. unfold handle_leave. munfold. intros H.
  repeat case_match; simplify_eq; chain_grows.
Qed.

Lemma handle_message_tracked h client_id group message_id :
  tracked h (handle_message client_id group message_id).
Proof.
  intros st r st' out. unfold handle_message. munfold. intros H.
  repeat case_match; simplify_eq; chain_grows.
Qed.

Lemma handle_post_tracked h today client_id group subject message :
  tracked h (handle_post today client_id group subject message).
Proof.
  intros st r st' out. unfold handle_post. munfold. intros H.
  repeat case_match; simplify_eq; chain_grows.
Qed.

Lemma open_connection_handshake_grows
    sock client_name_id client_info st r st' out :
  is_Some (dict_get "default" (boards st)) →
  open_connection_handshake sock client_name_id client_info st = (r, st', out) →
  rtc (grow true) st st'.
Proof.
  intros Hdef%dict_mem_true.
  unfold open_connection_handshake, add_clients_groups, broadcast_client_join.
  munfold. cbv zeta. intros H.
  repeat case_match; simplify_eq; simpl in *;
    try match goal with
        | H : negb (dict_mem "default" _) = true |- _ =>
            rewrite Hdef in H; discriminate
        end;
    chain_grows.
Qed.

Lemma open_connection_step_tracked today w data :
  tracked false (open_connection_step today w data).
Proof.
  unfold open_connection_step, call_handle_post, call_handle_message.
  cbv zeta.
  repeat first
    [ apply handle_join_tracked | apply handle_leave_tracked
    | apply handle_post_tracked | apply handle_message_tracked
    | apply tracked_lift | apply tracked_get | apply tracked_send
    | apply tracked_emit | apply tracked_ret | apply tracked_raise
    | apply tracked_exit
    | apply tracked_bind; [|intros ?]
    | case_decide | case_bool_decide | case_match ].
Qed.

(** What one event does to the server: the writes of [grow], without the
    bare creation of a group when the event is a request. *)
Lemma step_grows sys e :
  is_Some (dict_get "default" (boards (server sys))) →
  rtc (grow (if e is Accept _ _ _ then true else false))
    (server sys) (server (step sys e).1).
Proof.
  intros Hdef. destruct e as [sock nid info|cid data today]; simpl.
  - destruct (open_connection_handshake _ _ _ _) as [[[w|e] st] out] eqn:H;
      simpl; by eapply open_connection_handshake_grows.
  - destruct (dict_get cid (workers sys)) as [w|]; [|apply rtc_refl].
    destruct (open_connection_step _ _ _ _) as [[[[]|e] st] out] eqn:H;
      simpl; by eapply open_connection_step_tracked.
Qed.

(** ** What the writes keep *)

Lemma dict_get_set_is_Some {K V} `{!EqDecision K} (k k' : K) (v : V) d :
  is_Some (dict_get k' (dict_set k v d)) ↔ k' = k ∨ is_Some (dict_get k' d).
Proof.
  destruct (decide (k = k')) as [->|Hne].
  - rewrite dict_get_set_eq. split; [by left|done].
  - rewrite dict_get_set_ne by done. split; [by right|].
    by intros [->|?].
Qed.

Lemma grow_ids_below h st st' :
  grow h st st' → ids_below st →
  ids_below st' ∧ (client_ids st ≤ client_ids st')%nat.
Proof.
  intros Hg Hst.
  destruct Hg as [st|st cid c Hc|st cid|st g a x Ha Hx|st g a x Ha|st g x Hh Hg
                 |st g x Hg|st g Hg Hb|st g a b m Ha Hb Hm];
    (split; [|simpl; lia]); try exact Hst; intros cid' c'; simpl.
  - intros Hin. apply Hst in Hin. lia.
  - intros [[= -> ->]|Hin]%dict_set_elem_of; [done|by eapply Hst].
  - intros Hin%dict_pop_elem_of. by eapply Hst.
Qed.

Lemma grow_members_once h st st' :
  grow h st st' → allocated st → members_once st → members_once st'.
Proof.
  intros Hg Hal Hst.
  destruct Hg as [st|st cid c Hc|st cid|st g a x Ha Hx|st g a x Ha|st g x Hh Hg
                 |st g x Hg|st g Hg Hb|st g a b m Ha Hb Hm];
    try exact Hst; intros g' a'; simpl.
  - intros Hin. destruct (decide (a = a')) as [<-|Hne].
    + pose proof (Hal _ _ Hin) as Hlt. rewrite deref_store by done.
      apply NoDup_app. split; [by eapply Hst|]. split; [|apply NoDup_singleton].
      intros y Hy ->%list_elem_of_singleton. done.
    + rewrite deref_store_ne by done. by eapply Hst.
  - intros Hin. destruct (decide (a = a')) as [<-|Hne].
    + pose proof (Hal _ _ Hin) as Hlt. rewrite deref_store by done.
      apply list_remove_NoDup. by eapply Hst.
    + rewrite deref_store_ne by done. by eapply Hst.
  - intros [[= -> ->]|Hin]%dict_set_elem_of.
    + rewrite (deref_new (heap st) [x] _ (reflexivity _)).
      apply NoDup_singleton.
    + rewrite deref_app by by eapply Hal. by eapply Hst.
  - intros [[= -> ->]|Hin]%dict_set_elem_of.
    + rewrite (deref_new (heap st) [x] _ (reflexivity _)).
      apply NoDup_singleton.
    + rewrite deref_app by by eapply Hal. by eapply Hst.
  - intros Hin. rewrite deref_app by by eapply Hal. by eapply Hst.
Qed.

Lemma grow_boards_of_groups h st st' :
  grow h st st' → boards_of_groups st → boards_of_groups st'.
Proof.
  intros Hg [Hdef Hst].
  destruct Hg as [st|st cid c Hc|st cid|st g a x Ha Hx|st g a x Ha|st g x Hh Hg
                 |st g x Hg|st g Hg Hb|st g a b m Ha Hb Hm];
    try (split; [exact Hdef|exact Hst]); split; simpl.
  - done.
  - intros g' Hg'. apply dict_get_set_is_Some. right. by apply Hst.
  - apply dict_get_set_is_Some. by right.
  - intros g' [->|Hg']%dict_get_set_is_Some; apply dict_get_set_is_Some;
      [by left|right; by apply Hst].
  - apply dict_get_set_is_Some. by right.
  - intros g' [->|Hg']%dict_get_set_is_Some; [done|by apply Hst].
  - apply dict_get_set_is_Some. by right.
  - intros g' [->|Hg']%dict_get_set_is_Some; [by rewrite Ha|by apply Hst].
Qed.

Lemma grow_groups_have_boards st st' :
  grow false st st' → groups_have_boards st → groups_have_boards st'.
Proof.
  intros Hg Hst.
  destruct Hg as [st|st cid c Hc|st cid|st g a x Ha Hx|st g a x Ha|st g x Hh Hg
                 |st g x Hg|st g Hg Hb|st g a b m Ha Hb Hm];
    try exact Hst; try discriminate; intros g'; simpl.
  - intros [->|Hg']%dict_get_set_is_Some; apply dict_get_set_is_Some;
      [by left|right; by apply Hst].
  - intros Hg'. apply dict_get_set_is_Some. right. by apply Hst.
  - intros Hg'. apply dict_get_set_is_Some. right. by apply Hst.
Qed.

Lemma grow_keeps_groups h st st' g a :
  grow h st st' → dict_get g (groups st) = Some a →
  dict_get g (groups st') = Some a.
Proof.
  intros Hg Hst.
  destruct Hg as [st|st cid c Hc|st cid|st g0 a0 x Ha Hx|st g0 a0 x Ha
                 |st g0 x Hh Hg|st g0 x Hg|st g0 Hg Hb
                 |st g0 a0 b m Ha Hb Hm];
    try exact Hst; simpl; rewrite dict_get_set_ne; congruence.
Qed.


(** ** What every run keeps *)

Lemma consistent_init : consistent init.
Proof.
  split_and!.
  - apply gapless_init.
  - apply separated_init.
  - apply well_keyed_init.
  - intros cid c Hin. by apply elem_of_nil in Hin.
  - intros g a [= -> ->]%list_elem_of_singleton. apply NoDup_nil_2.
  - split; [by exists []|]. intros g Hg. simpl in *.
    case_decide; [by exists 0%nat|]. by apply is_Some_None in Hg.
  - intros g Hg. simpl in *.
    case_decide; [by exists []|]. by apply is_Some_None in Hg.
Qed.

Lemma grows_keep h st st' :
  rtc (grow h) st st' →
  gapless st → separated st → well_keyed st → ids_below st →
  members_once st → boards_of_groups st →
  gapless st' ∧ separated st' ∧ well_keyed st' ∧ ids_below st'
  ∧ members_once st' ∧ boards_of_groups st'
  ∧ (client_ids st ≤ client_ids st')%nat.
Proof.
  induction 1 as [st|st st1 st' Hg Hgs IH]; intros Hgap Hsep Hwk Hids Hm Hb.
  - split_and!; done || lia.
  - pose proof (grow_write _ _ _ Hg) as Hw.
    destruct (grow_ids_below _ _ _ Hg Hids) as [Hids1 Hle].
    destruct IH as (? & ? & ? & ? & ? & ? & ?).
    + by eapply writes_gapless.
    + by eapply writes_separated.
    + by eapply writes_well_keyed.
    + done.
    + eapply grow_members_once; [done|apply Hsep|done].
    + by eapply grow_boards_of_groups.
    + split_and!; done || lia.
Qed.

Lemma grows_groups_have_boards st st' :
  rtc (grow false) st st' → groups_have_boards st → groups_have_boards st'.
Proof. induction 1; eauto using grow_groups_have_boards. Qed.

Lemma grows_keep_groups h st st' g a :
  rtc (grow h) st st' → dict_get g (groups st) = Some a →
  dict_get g (groups st') = Some a.
Proof. induction 1; eauto using grow_keeps_groups. Qed.


(** A first frame with fewer than two fields: [IndexError], nothing done *)
Lemma open_connection_handshake_short sock client_name_id client_info st :
  (length (Text.split " " client_info) < 2)%nat →
  open_connection_handshake sock client_name_id client_info st
  = (Raise IndexError, st, []).
Proof.
  intros Hlen. unfold open_connection_handshake. cbv zeta.
  destruct (Text.split " " client_info) as [|x [|y rest]]; simpl in Hlen;
    [done|done|lia].
Qed.

Lemma step_consistent sys e :
  consistent (server sys) → consistent (server (step sys e).1).
Proof.
  intros (Hgap & Hsep & Hwk & Hids & Hm & Hbg & Hgb).
  pose proof (step_grows sys e (proj1 Hbg)) as Hgrow.
  destruct (grows_keep _ _ _ Hgrow Hgap Hsep Hwk Hids Hm Hbg)
    as (? & ? & ? & ? & ? & ? & _).
  split_and!; try done.
  destruct e as [sock nid info|cid data today].
  - simpl. destruct (Text.split " " info) as [|x [|y rest]] eqn:Hsplit.
    + rewrite open_connection_handshake_short by (rewrite Hsplit; simpl; lia).
      done.
    + rewrite open_connection_handshake_short by (rewrite Hsplit; simpl; lia).
      done.
    + destruct (open_connection_handshake_run sock nid _ (server sys) _ _ _
                  Hsplit (proj1 Hsep) Hids)
        as (st' & -> & _ & _ & _ & Hall & _).
      simpl. intros g Hg. apply Hall.
      apply dec_stable. intros Hout%dict_get_None_keys.
      rewrite Hout in Hg. by destruct Hg.
  - by eapply grows_groups_have_boards.
Qed.

Lemma run_consistent sys evs :
  consistent (server sys) → consistent (server (run sys evs).1).
Proof.
  revert sys. induction evs as [|e evs IH]; intros sys Hst; simpl; [done|].
  pose proof (step_consistent sys e Hst) as H1.
  destruct (step sys e) as [sys1 o1]. specialize (IH sys1 H1).
  by destruct (run sys1 evs) as [sys2 o2].
Qed.


Lemma write_keeps_groups st st' g a :
  write st st' → dict_get g (groups st) = Some a →
  dict_get g (groups st') = Some a.
Proof.
  intros Hw Hst.
  destruct Hw as [st n|st cs|st g0 a0 l Ha|st g0 l Hg|st g0
                 |st g0 a0 b m Ha Hb Hm];
    try exact Hst; simpl; rewrite dict_get_set_ne; congruence.
Qed.


(** X21. A group is never deleted: once a name is a key of the groups, it
    stays one through every later event (also when its last member has
    left), bound to the same list object. *)
Theorem groups_are_never_deleted sys evs g a :
  dict_get g (groups (server sys)) = Some a →
  dict_get g (groups (server (run sys evs).1)) = Some a.
Proof.
  intros Hg. pose proof (run_writes sys evs) as Hrun.
  induction Hrun as [st|st st1 st' Hw Hws IH]; [done|].
  apply IH. by eapply write_keeps_groups.
Qed.

Lemma groups_are_never_deleted_witness :
  dict_get "default"
    (groups (server (run {| server := alice_in_default;
                            workers := [(0%nat, alice_worker)] |}
                       [Recv 0 "leave" day0]).1))
  = Some 0%nat.
Proof.
  apply (groups_are_never_deleted
           {| server := alice_in_default; workers := [(0%nat, alice_worker)] |}
           [Recv 0 "leave" day0] "default" 0%nat).
  reflexivity.
Defined.

(** X22. From a consistent state (a fresh server is one), whatever events
    follow: no name is twice in the member list of a group, and the groups
    and the boards have the same keys, "default" among them. *)
Theorem groups_and_boards_go_together sys evs :
  consistent (server sys) →
  let st := server (run sys evs).1 in
  (∀ g a, dict_get g (groups st) = Some a → NoDup (deref (heap st) a))
  ∧ (∀ g, is_Some (dict_get g (groups st)) ↔ is_Some (dict_get g (boards st)))
  ∧ is_Some (dict_get "default" (boards st)).
Proof.
  intros Hst st.
  destruct (run_consistent sys evs Hst)
    as (_ & _ & _ & _ & Hm & [Hdef Hbg] & Hgb).
  split_and!.
  - intros g a Hg. eapply Hm. by apply dict_get_elem_of.
  - intros g. split; [apply Hgb | apply Hbg].
  - done.
Qed.

Lemma groups_and_boards_go_together_witness :
  let st := server (run boot [Accept 7 0 "alice chess"]).1 in
  (∀ g a, dict_get g (groups st) = Some a → NoDup (deref (heap st) a))
  ∧ (∀ g, is_Some (dict_get g (groups st)) ↔ is_Some (dict_get g (boards st)))
  ∧ is_Some (dict_get "default" (boards st)).
Proof.
  apply (groups_and_boards_go_together boot [Accept 7 0 "alice chess"]).
  apply consistent_init.
Defined.








(** X26. A member's post always lands: in every state a run reaches from
    a consistent one the group of a member has a board, so that the post
    returns normally and adds the message at the end of that board. *)
Theorem member_post_always_lands
    sys evs today client_id group subject message c a :
  consistent (server sys) →
  let st := server (run sys evs).1 in
  dict_get client_id (connected_clients st) = Some c →
  dict_get group (groups st) = Some a →
  name c ∈ deref (heap st) a →
  ∃ b st' out,
    handle_post today client_id group subject message st = (Val tt, st', out)
    ∧ dict_get group (boards st) = Some b
    ∧ dict_get group (boards st')
      = Some (b ++ [(Z.of_nat (length b),
                     posted today (name c) subject message
                       (length (heap st)))]).
Proof.
  intros Hst st Hc Ha Hin.
  destruct (run_consistent sys evs Hst) as (Hgap & _ & _ & _ & _ & _ & Hgb).
  destruct (Hgb group) as [b Hb]; [exact (mk_is_Some _ _ Ha)|].
  exists b. eexists _, _.
  split; [by apply handle_post_member|]. split; [done|]. simpl.
  rewrite dict_get_set_eq. f_equal.
  apply gapless_board_post. eapply Hgap. by apply dict_get_elem_of.
Qed.

Lemma member_post_always_lands_witness :
  let st := server (run boot [Accept 7 0 "alice chess"]).1 in
  let c := {| name := "alice"; name_id := 0; group := "chess";
              client_socket := 7 |} in
  ∃ b st' out,
    handle_post day0 0 "chess" "Opening" ["e4"] st = (Val tt, st', out)
    ∧ dict_get "chess" (boards st) = Some b
    ∧ dict_get "chess" (boards st')
      = Some (b ++ [(Z.of_nat (length b),
                     posted day0 (name c) "Opening" ["e4"]
                       (length (heap st)))]).
Proof.
  apply (member_post_always_lands boot [Accept 7 0 "alice chess"] day0 0%nat
           "chess" "Opening" ["e4"]
           {| name := "alice"; name_id := 0; group := "chess";
              client_socket := 7 |} 1%nat).
  - apply consistent_init.
  - reflexivity.
  - reflexivity.
  - vm_compute. left.
Defined.

(** ** Restart *)

(** The restart from the files of a shutdown goes through, and the new
    state shows the contents the old one had. *)
Lemma server_restart st :
  well_keyed st →
  ∃ st',
    server_startup (Some (server_shutdown st).1) (Some (server_shutdown st).2)
      = Some st'
    ∧ group_contents (heap st') (groups st')
      = group_contents (heap st) (groups st)
    ∧ (λ gb, (gb.1, board_contents (heap st') gb.2)) <$> boards st'
      = (λ gb, (gb.1, board_contents (heap st) gb.2)) <$> boards st.
Proof.
  intros (Hg & Hb & Hbs). unfold server_startup, server_shutdown.
  cbn [fst snd].
  destruct (load_groups_spec (group_contents (heap st) (groups st)) []
              (heap init)) as (d & h1 & Hload & _ & Hd).
  { simpl. unfold group_contents. by rewrite keys_of_contents. }
  rewrite Hload. cbn [fst snd app].
  destruct (load_boards_spec
              ((λ gb, (gb.1, (λ km, (Text.py_str km.1, km.2))
                               <$> board_contents (heap st) gb.2))
                 <$> boards st) [] h1) as (raw & h2 & Hraw & Hpre & Hview).
  { simpl. by rewrite keys_of_contents. }
  { intros g msgs ([g' b] & [= -> ->] & Hin)%list_elem_of_fmap.
    cbn [fst snd]. rewrite keys_of_dumped_board.
    apply NoDup_fmap_2; [apply pretty_Z_inj|]. by eapply Hbs. }
  rewrite Hraw. cbn [fst snd app].
  destruct (reload_boards h2 (heap st) raw (boards st))
    as (bs' & -> & Hbs'); [by apply Hview|done|].
  eexists. split; [done|]. simpl. split; [by apply Hd|done].
Qed.

(** A restart forgets the clients and starts the ids again at 0. *)
Lemma server_startup_registry groups_file boards_file st' :
  server_startup groups_file boards_file = Some st' →
  client_ids st' = 0%nat ∧ connected_clients st' = [].
Proof.
  unfold server_startup. cbv zeta. destruct boards_file as [bj|]; simpl.
  - destruct (mapM _ _) as [bs|]; [|done]. by intros [= <-].
  - by intros [= <-].
Qed.

Section Contents.
Context {K A B C : Type} `{!EqDecision K}.

(** Two dictionaries that show the same contents *)
Lemma contents_keys (f : A → C) (f' : B → C)
    (l : list (K * A)) (l' : list (K * B)) :
  (λ x, (x.1, f' x.2)) <$> l' = (λ x, (x.1, f x.2)) <$> l →
  dict_keys l' = dict_keys l.
Proof.
  intros Heq. apply (f_equal (fmap fst)) in Heq.
  unfold dict_keys. by rewrite !keys_of_contents in Heq.
Qed.


Lemma contents_elem_of (f : A → C) (f' : B → C)
    (l : list (K * A)) (l' : list (K * B)) k v' :
  (λ x, (x.1, f' x.2)) <$> l' = (λ x, (x.1, f x.2)) <$> l →
  (k, v') ∈ l' →
  ∃ v, (k, v) ∈ l ∧ f' v' = f v.
Proof.
  intros Heq Hin.
  assert ((k, f' v') ∈ (λ x : K * A, (x.1, f x.2)) <$> l)
    as ([k0 v] & [= -> Hv] & Hin0)%list_elem_of_fmap.
  { rewrite <- Heq. by apply (list_elem_of_fmap_2' _ _ (k, v')). }
  by exists v.
Qed.
End Contents.

Lemma is_Some_dict_keys {K V} `{!EqDecision K} (k : K) (d : list (K * V)) :
  is_Some (dict_get k d) ↔ k ∈ dict_keys d.
Proof.
  split; [|apply dict_keys_is_Some].
  intros Hk. apply dec_stable. intros Hout%dict_get_None_keys.
  rewrite Hout in Hk. by apply is_Some_None in Hk.
Qed.

(** The invariants go through a shutdown and a restart. *)
Lemma restart_consistent st st' :
  consistent st →
  server_startup (Some (server_shutdown st).1) (Some (server_shutdown st).2)
    = Some st' →
  consistent st'.
Proof.
  intros (Hgap & Hsep & Hwk & Hids & Hm & [Hdef Hbg] & Hgb) Hstart.
  destruct (server_restart st Hwk) as (st2 & Hst2 & Hgroups & Hboards).
  assert (st2 = st') as -> by congruence.
  pose proof (contents_keys _ _ _ _ Hgroups) as Hgk.
  pose proof (contents_keys _ _ _ _ Hboards) as Hbk.
  destruct (server_startup_registry _ _ _ Hstart) as [_ Hreg].
  split_and!.
  - by eapply restart_gapless.
  - by eapply server_startup_separated.
  - destruct Hwk as (Hg & Hb & Hbs). split_and!.
    + by rewrite Hgk.
    + by rewrite Hbk.
    + intros g b' Hin.
      destruct (contents_elem_of _ _ _ _ _ _ Hboards Hin) as (b & Hb0 & Heq).
      unfold board_contents in Heq.
      rewrite (contents_keys _ _ _ _ Heq). by eapply Hbs.
  - intros cid c Hin. rewrite Hreg in Hin. by apply elem_of_nil in Hin.
  - intros g a' Hin.
    destruct (contents_elem_of _ _ _ _ _ _ Hgroups Hin) as (a & Ha & Heq).
    rewrite Heq. by eapply Hm.
  - split.
    + apply is_Some_dict_keys. rewrite Hbk. by apply is_Some_dict_keys.
    + intros g Hg%is_Some_dict_keys. apply is_Some_dict_keys.
      rewrite Hgk. apply is_Some_dict_keys, Hbg, is_Some_dict_keys.
      by rewrite <- Hbk.
  - intros g Hg%is_Some_dict_keys. apply is_Some_dict_keys.
    rewrite Hbk. apply is_Some_dict_keys, Hgb, is_Some_dict_keys.
    by rewrite <- Hgk.
Qed.

(** X27. A server restarted from the two files it wrote at shutdown is in
    a consistent state again, with no client registered and the id counter
    back at 0: what holds of every run from a consistent state holds of
    the runs after a restart too. *)
Theorem restart_keeps_the_invariants st :
  consistent st →
  ∃ st',
    server_startup (Some (server_shutdown st).1) (Some (server_shutdown st).2)
      = Some st'
    ∧ consistent st'
    ∧ client_ids st' = 0%nat ∧ connected_clients st' = [].
Proof.
  intros Hst. pose proof Hst as (_ & _ & Hwk & _).
  destruct (server_restart st Hwk) as (st' & Hstart & _).
  exists st'. split; [done|]. split; [by eapply restart_consistent|].
  by eapply server_startup_registry.
Qed.

Lemma restart_keeps_the_invariants_witness :
  let st := server (run boot [Accept 7 0 "alice chess";
                              Recv 0 "grouppost chess Opening e4" day0]).1 in
  ∃ st',
    server_startup (Some (server_shutdown st).1) (Some (server_shutdown st).2)
      = Some st'
    ∧ consistent st'
    ∧ client_ids st' = 0%nat ∧ connected_clients st' = [].
Proof.
  apply (restart_keeps_the_invariants
           (server (run boot [Accept 7 0 "alice chess";
                              Recv 0 "grouppost chess Opening e4" day0]).1)).
  apply (run_consistent boot), consistent_init.
Defined.



(** ** A boards file with a key that is no number *)






